(** * Language detection for TV channel records

    A shallow embedding of [helpers/websearch-language-detection.js]
    (with the cache class of [scripts/enrich-tv-with-language.js]) and the
    properties of it that the specification states.

    Conventions of the embedding.
    - A JavaScript string is the list of its UTF-16 code units ([jstring]).
    - A JavaScript number is an exact rational ([Q]).  Every number the
      program computes is a small integer, a multiple of one half, one of
      the literals 0.4 ... 0.95, or a quotient [count / length] with
      [length <= 5000]; the comparisons made on them do not depend on the
      rounding of binary64 arithmetic.
    - An HTML document is the record of what the selectors of the program
      return on it ([Page]); the parsers themselves (cheerio, html-to-text)
      and the classifier franc are outside the repository.
    - A regular expression literal is a term of [regex], run by a
      backtracking matcher. *)

From Stdlib Require Import List NArith ZArith QArith Qminmax Bool Lia Lqa String Ascii.
From stdpp Require Import base gmap.
Import ListNotations.

Local Open Scope N_scope.

(* ================================================================== *)
(** * Part I: the program *)
(* ================================================================== *)

(** ** Strings *)

Definition jstring : Type := list N.

(** A string literal of the source (ASCII only in this program). *)
Definition js (s : string) : jstring :=
  List.map N_of_ascii (list_ascii_of_string s).

Definition inRange (lo hi c : N) : bool := (lo <=? c) && (c <=? hi).

Definition isUpperAscii (c : N) : bool := inRange 65 90 c.     (* A-Z *)
Definition isLowerAscii (c : N) : bool := inRange 97 122 c.    (* a-z *)
Definition isDigit (c : N) : bool := inRange 48 57 c.          (* 0-9 *)
Definition isAlpha (c : N) : bool := isUpperAscii c || isLowerAscii c.
Definition isAlnum (c : N) : bool := isAlpha c || isDigit c.
Definition isAlnumHyphen (c : N) : bool := isAlnum c || (c =? 45).
(** [\w] of a regular expression without the [u] flag. *)
Definition isWordChar (c : N) : bool := isAlnum c || (c =? 95).

(** ECMAScript LineTerminator and WhiteSpace code points; [\s] and
    [String.prototype.trim] use their union. *)
Definition isLineTerminator (c : N) : bool :=
  (c =? 10) || (c =? 13) || (c =? 8232) || (c =? 8233).

Definition isWhiteSpace (c : N) : bool :=
  (c =? 9) || (c =? 11) || (c =? 12) || (c =? 32) || (c =? 160)
  || (c =? 5760) || inRange 8192 8202 c || (c =? 8239) || (c =? 8287)
  || (c =? 12288) || (c =? 65279) || isLineTerminator c.

(** [String.prototype.toLowerCase], as far as this program can observe it.
    The lower-cased strings are only tested against patterns made of ASCII
    characters, [\s], [\b] and [.]; besides A-Z, the only code units whose
    lower case contains an ASCII unit are U+0130 (i, U+0307) and U+212A
    (Kelvin sign, k).  Any other unit above U+007F lower-cases to units
    above U+007F of the same white-space class, which those patterns do
    not tell apart, and is kept as it is. *)
Definition lowerUnit (c : N) : jstring :=
  if isUpperAscii c then [c + 32]
  else if c =? 304 then [105; 775]
  else if c =? 8490 then [107]
  else [c].

Definition toLowerCase (s : jstring) : jstring := flat_map lowerUnit s.

Fixpoint dropWhile (p : N -> bool) (s : jstring) : jstring :=
  match s with
  | [] => []
  | c :: s' => if p c then dropWhile p s' else s
  end.

Definition trimStart (s : jstring) : jstring := dropWhile isWhiteSpace s.
Definition trimEnd (s : jstring) : jstring := rev (dropWhile isWhiteSpace (rev s)).
Definition trim (s : jstring) : jstring := trimEnd (trimStart s).

(** [s.split(sep)] for a one-character separator; never the empty list. *)
Fixpoint split (sep : N) (s : jstring) : list jstring :=
  match s with
  | [] => [[]]
  | c :: s' =>
      if c =? sep then [] :: split sep s'
      else match split sep s' with
           | p :: ps => (c :: p) :: ps
           | [] => [[c]]
           end
  end.

(** [s.replace(/\s+/g, ' ')]: every maximal run of white space becomes one
    space; [inRun] tells that the previous unit was white space. *)
Fixpoint collapseSpaces (inRun : bool) (s : jstring) : jstring :=
  match s with
  | [] => []
  | c :: s' =>
      if isWhiteSpace c
      then (if inRun then collapseSpaces true s' else 32 :: collapseSpaces true s')
      else c :: collapseSpaces false s'
  end.

Definition substring0 (n : nat) (s : jstring) : jstring := firstn n s.

(** [(s.match(/[lo-hi]/g) || []).length] *)
Definition countIf (p : N -> bool) (s : jstring) : nat :=
  List.length (List.filter p s).

Fixpoint join (sep : jstring) (l : list jstring) : jstring :=
  match l with
  | [] => []
  | [x] => x
  | x :: l' => x ++ sep ++ join sep l'
  end.

Fixpoint jstring_eqb (a b : jstring) : bool :=
  match a, b with
  | [], [] => true
  | x :: a', y :: b' => (x =? y) && jstring_eqb a' b'
  | _, _ => false
  end.

(** ** Values and completions *)

(** The JavaScript values this program handles.  The two object
    constructors are what a property lookup on a plain object literal finds
    along the prototype chain under the names [constructor] and
    [__proto__]. *)
Inductive jsval : Type :=
| VUndefined
| VNull
| VBool (b : bool)
| VNumber (q : Q)
| VString (s : jstring)
| VObjectCtor      (* the function Object *)
| VObjectProto     (* Object.prototype *)
| VObject.         (* any other object *)

Definition truthy (v : jsval) : bool :=
  match v with
  | VUndefined | VNull => false
  | VBool b => b
  | VNumber q => negb (Qeq_bool q 0)
  | VString s => match s with [] => false | _ => true end
  | VObjectCtor | VObjectProto | VObject => true
  end.

Definition typeofString (v : jsval) : bool :=
  match v with VString _ => true | _ => false end.

(** ToString, used when a value becomes a property key. *)
Definition toPropertyKey (v : jsval) : jstring :=
  match v with
  | VString s => s
  | VObjectCtor => js "function Object() { [native code] }"
  | VObjectProto | VObject => js "[object Object]"
  | VUndefined => js "undefined"
  | VNull => js "null"
  | VBool true => js "true"
  | VBool false => js "false"
  | VNumber _ => js "NaN"   (* never a key in this program *)
  end.

(** A call either returns or throws. *)
Inductive completion (A : Type) : Type :=
| Normal (a : A)
| Throw (error : jstring).
Arguments Normal {A} a.
Arguments Throw {A} error.

Definition cbind {A B} (c : completion A) (k : A -> completion B) : completion B :=
  match c with
  | Normal a => k a
  | Throw e => Throw e
  end.

(** Method calls on a receiver that may not be a string. *)
Definition callSplit (v : jsval) (sep : N) : completion (list jstring) :=
  match v with
  | VString s => Normal (split sep s)
  | VUndefined | VNull => Throw (js "TypeError: Cannot read properties of null or undefined")
  | _ => Throw (js "TypeError: split is not a function")
  end.

Definition callToLowerCase (v : jsval) : completion jstring :=
  match v with
  | VString s => Normal (toLowerCase s)
  | VUndefined | VNull => Throw (js "TypeError: Cannot read properties of null or undefined")
  | _ => Throw (js "TypeError: toLowerCase is not a function")
  end.

(** ** Regular expressions *)

Inductive regex : Type :=
| Eps
| Cls (p : N -> bool)        (* one code unit of a class *)
| Seq (a b : regex)
| Alt (a b : regex)
| Star (a : regex)
| Bol                        (* ^ *)
| Eol                        (* $ *)
| WordB                      (* \b *)
| NotAhead (a : regex).      (* (?!a) *)

(** A position in the subject: the unit just before it, if any, and the
    rest of the subject. *)
Definition matcher : Type :=
  option N -> jstring -> (option N -> jstring -> bool) -> bool.

Definition isWordAt (o : option N) : bool :=
  match o with Some c => isWordChar c | None => false end.

Definition atWordBoundary (prev : option N) (s : jstring) : bool :=
  xorb (isWordAt prev) (isWordAt (head s)).

(** Iteration of [m]; an iteration that consumes nothing is rejected, as
    in ECMAScript's RepeatMatcher. *)
Fixpoint starLoop (m : matcher) (fuel : nat) : matcher :=
  fun prev s k =>
    match fuel with
    | O => k prev s
    | S fuel' =>
        m prev s (fun p' s' =>
                    (List.length s' <? List.length s)%nat && starLoop m fuel' p' s' k)
        || k prev s
    end.

Fixpoint run (r : regex) : matcher :=
  fun prev s k =>
    match r with
    | Eps => k prev s
    | Cls p => match s with
               | c :: s' => p c && k (Some c) s'
               | [] => false
               end
    | Seq a b => run a prev s (fun p' s' => run b p' s' k)
    | Alt a b => run a prev s k || run b prev s k
    | Star a => starLoop (run a) (S (List.length s)) prev s k
    | Bol => match prev with None => k prev s | Some _ => false end
    | Eol => match s with [] => k prev s | _ :: _ => false end
    | WordB => atWordBoundary prev s && k prev s
    | NotAhead a => negb (run a prev s (fun _ _ => true)) && k prev s
    end.

(** Is there a match starting at this position or at a later one? *)
Fixpoint search (r : regex) (prev : option N) (s : jstring) : bool :=
  run r prev s (fun _ _ => true)
  || match s with
     | [] => false
     | c :: s' => search r (Some c) s'
     end.

(** [re.test(s)] *)
Definition test (r : regex) (s : jstring) : bool := search r None s.

(** *** Pattern combinators *)

Definition Never : regex := NotAhead Eps.
Definition Opt (a : regex) : regex := Alt a Eps.           (* a? *)
Definition Plus (a : regex) : regex := Seq a (Star a).     (* a+ *)
Definition AtLeast2 (a : regex) : regex := Seq a (Seq a (Star a)).  (* a{2,} *)
Definition Exactly2 (a : regex) : regex := Seq a a.        (* a{2} *)

Fixpoint seqs (rs : list regex) : regex :=
  match rs with
  | [] => Eps
  | [r] => r
  | r :: rs' => Seq r (seqs rs')
  end.

Fixpoint alts (rs : list regex) : regex :=
  match rs with
  | [] => Never
  | [r] => r
  | r :: rs' => Alt r (alts rs')
  end.

(** A literal character, and one under the [i] flag.  Without the [u]
    flag a pattern letter matches its two ASCII cases only. *)
Definition chr (x : N) : regex := Cls (N.eqb x).
Definition asciiLower (c : N) : N := if isUpperAscii c then c + 32 else c.
Definition chrI (x : N) : regex := Cls (fun c => asciiLower c =? asciiLower x).

Definition lit (w : jstring) : regex := seqs (List.map chr w).
Definition litI (w : jstring) : regex := seqs (List.map chrI w).
(** A literal of a pattern written with the [i] flag. *)
Definition L (w : string) : regex := litI (js w).

Definition Dot : regex := Cls (fun c => negb (isLineTerminator c)).  (* . *)
Definition DotStar : regex := Star Dot.                              (* .* *)
Definition Space : regex := Cls isWhiteSpace.                        (* \s *)

Local Open Scope string_scope.
Local Open Scope list_scope.
Local Open Scope N_scope.

(** ** Constants of the module *)

(** [LANGUAGE_PATTERNS], in the order of [Object.entries]. *)
Definition LANGUAGE_PATTERNS : list (jstring * regex) :=
  [ (js "tamil",
     alts [L "tamil"; L "sun tv"; L "raj tv"; L "raj musix"; L "kalaignar";
           L "vijay"; L "puthiya"; L "thanthi"; L "polimer";
           seqs [L "news"; Opt (L " "); L "7 tamil"];
           L "jaya"; L "vasanth"; L "makkal"; L "captain"; L "aaseervatham";
           L "dd tamil"; L "tamilan";
           seqs [L "blessing"; DotStar; L "tamil"];
           seqs [L "naaptol"; DotStar; L "tamil"];
           seqs [L "aastha"; DotStar; L "tamil"]]);
    (js "telugu",
     alts [L "telugu"; L "gemini"; L "etv"; L "maa";
           seqs [L "10"; Opt (L " "); L "tv"];
           seqs [L "6"; Opt (L " "); L "tv"];
           seqs [L "4"; Opt (L " "); L "tv"];
           L "ntv"; L "v6"; L "abn"; L "sakshi";
           seqs [L "t"; Opt (L " "); L "news"];
           L "vanitha"; L "zee telugu"; L "star maa";
           seqs [L "aastha"; DotStar; L "telugu"]]);
    (js "kannada",
     alts [L "kannada"; L "udaya"; L "suvarna"; L "zee kannada";
           L "colors kannada"; L "kasturi"; L "dd chandana";
           seqs [L "public"; DotStar; L "tv"; DotStar; L "kannada"];
           seqs [L "raj"; DotStar; L "news"; DotStar; L "kannada"];
           seqs [L "aastha"; DotStar; L "kannada"]]);
    (js "malayalam",
     alts [L "malayalam"; L "asianet"; L "mazhavil"; L "surya"; L "kairali";
           L "manorama"; L "amrita"; L "jaihind";
           seqs [L "media"; Opt (L " "); L "one"];
           L "mathrubhumi"; L "safari"; L "flowers"; L "kaumudy";
           L "zee keralam"; L "jeevan"]);
    (js "hindi",
     alts [L "hindi";
           seqs [L "zee";
                 NotAhead (alts [seqs [DotStar; L "tamil"];
                                 seqs [DotStar; L "telugu"];
                                 seqs [DotStar; L "kannada"];
                                 seqs [DotStar; L "malayalam"];
                                 seqs [DotStar; L "bengali"];
                                 seqs [DotStar; L "marathi"];
                                 seqs [DotStar; L "punjabi"];
                                 seqs [DotStar; L "gujarati"]])];
           L "star plus"; L "sony"; L "colors"; L "&tv"; L "sab tv";
           L "rishtey"; L "dangal"; L "aaj tak"; L "abp news"; L "ndtv";
           L "india tv"; L "news18"; L "republic"; L "times now";
           L "india today"; L "dd india"; L "dd national"; L "dd bharati";
           seqs [L "news"; Opt (L " "); L "24"];
           L "epic"; L "big magic"; L "zing"; L "dd rajasthan"; L "dd uttar";
           L "dd madhya"; L "dd bihar"; L "dd jharkhand"; L "dd delhi";
           L "dhakad"; L "aastha"; L "sanskar"; L "ishara"; L "manoranjan";
           seqs [L "9x"; DotStar;
                 alts [L "jalwa"; L "jhakaas"; seqs [L "m"; WordB]]];
           L "music india"]);
    (js "marathi",
     alts [L "marathi"; L "zee marathi"; L "star pravah"; L "colors marathi";
           L "fakt marathi"]);
    (js "bengali",
     alts [L "bengali"; L "bangla"; L "jalsha"; L "zee bangla";
           L "colors bangla"; L "aakaash";
           seqs [L "amar"; DotStar; L "bangla"];
           L "calcutta"; L "akd"; L "ananda"]);
    (js "punjabi",
     alts [L "punjab"; L "ptc"; L "mh1"; L "zee punjabi"; L "9x tashan"]);
    (js "gujarati",
     alts [L "gujarati"; L "sandesh"; L "tv9 gujarati"; L "abp asmita";
           L "zee 24 kalak"; L "colors gujarati"]);
    (js "urdu", alts [L "urdu"; L "salaam"]);
    (js "bhojpuri", alts [L "bhojpuri"; L "b4u bhojpuri"]);
    (js "assamese",
     alts [L "assam"; L "pratidin";
           seqs [L "news"; DotStar; L "live"; DotStar; L "assam"];
           L "prag"]);
    (js "odia", alts [L "odia"; L "oriya"; L "alankar"; L "mbc"]);
    (js "english",
     alts [L "discovery"; L "national geographic"; L "nat geo";
           L "animal planet"; L "bbc"; L "cnn"; L "fox"; L "history";
           L "sony pix"; L "&flix"; L "&prive"; L "movies now"; L "romedy";
           L "mtv"; L "vh1"; L "comedy central"; L "nick"; L "cartoon";
           L "pogo"; L "disney"; L "hungama"; L "sony yay"; L "travel xp";
           L "fashion"; L "food"; L "tlc"; L "living"; L "espn";
           L "star sports";
           seqs [L "sony"; DotStar; L "sports"];
           L "eurosport"; L "dd sports"; L "mirror now"; L "wion"; L "zoom"])
  ].

(** [FRANC_TO_LANGUAGE_NAME]; [und] maps to null.  franc answers with a
    three-letter ISO 639-3 code or [und], so the lookup never reaches a
    name inherited from [Object.prototype]. *)
Definition FRANC_TO_LANGUAGE_NAME : list (jstring * option jstring) :=
  [ (js "tam", Some (js "tamil")); (js "tel", Some (js "telugu"));
    (js "hin", Some (js "hindi")); (js "kan", Some (js "kannada"));
    (js "mal", Some (js "malayalam")); (js "eng", Some (js "english"));
    (js "ben", Some (js "bengali")); (js "mar", Some (js "marathi"));
    (js "pan", Some (js "punjabi")); (js "guj", Some (js "gujarati"));
    (js "urd", Some (js "urdu")); (js "asm", Some (js "assamese"));
    (js "ori", Some (js "odia")); (js "bho", Some (js "bhojpuri"));
    (js "und", None) ].

(** Lookup of an own property in an ordered table. *)
Fixpoint assoc {A : Type} (key : jstring) (table : list (jstring * A)) : option A :=
  match table with
  | [] => None
  | (k, v) :: table' => if jstring_eqb k key then Some v else assoc key table'
  end.

(** [obj[key]] on an object literal whose own properties are strings:
    the own property if there is one, else what [Object.prototype]
    holds under that name. *)
Definition objectPrototypeGet (key : jstring) : jsval :=
  if jstring_eqb key (js "constructor") then VObjectCtor
  else if jstring_eqb key (js "__proto__") then VObjectProto
  else if existsb (jstring_eqb key)
            [js "toString"; js "toLocaleString"; js "valueOf";
             js "hasOwnProperty"; js "isPrototypeOf";
             js "propertyIsEnumerable"; js "__defineGetter__";
             js "__defineSetter__"; js "__lookupGetter__";
             js "__lookupSetter__"]
       then VObject
       else VUndefined.

Definition literalGet (own : list (jstring * jstring)) (key : jstring) : jsval :=
  match assoc key own with
  | Some v => VString v
  | None => objectPrototypeGet key
  end.

(** ** extractDomain *)

(** [/^[a-zA-Z0-9]([a-zA-Z0-9-]*[a-zA-Z0-9])?(\.[a-zA-Z]{2,})+$/] *)
Definition domainPattern : regex :=
  seqs [Bol; Cls isAlnum;
        Opt (Seq (Star (Cls isAlnumHyphen)) (Cls isAlnum));
        Plus (Seq (chr 46) (AtLeast2 (Cls isAlpha)));
        Eol].

Definition nonEmpty (s : jstring) : bool :=
  match s with [] => false | _ :: _ => true end.

Definition extractDomain (tvgId : jsval) : completion (option jstring) :=
  if negb (truthy tvgId) || negb (typeofString tvgId) then Normal None
  else
    cbind (callSplit tvgId 64) (fun parts =>
      if (List.length parts =? 0)%nat then Normal None
      else
        let domain := trim (nth 0 parts []) in
        if nonEmpty domain && test domainPattern domain
        then Normal (Some domain)
        else Normal None).

(** ** analyzeTextLanguage *)

Definition Qlt_bool (a b : Q) : bool := negb (Qle_bool b a).

Record TextResult : Type := mkTextResult {
  language : option jstring;
  confidence : Q;
  method : jstring
}.

(** The [scripts] object: one counter per Unicode block, in the order of
    the literal. *)
Definition scriptCounts (sample : jstring) : list (jstring * nat) :=
  [ (js "tamil",      countIf (inRange 2944 3071) sample);   (* 0B80-0BFF *)
    (js "telugu",     countIf (inRange 3072 3199) sample);   (* 0C00-0C7F *)
    (js "kannada",    countIf (inRange 3200 3327) sample);   (* 0C80-0CFF *)
    (js "malayalam",  countIf (inRange 3328 3455) sample);   (* 0D00-0D7F *)
    (js "devanagari", countIf (inRange 2304 2431) sample);   (* 0900-097F *)
    (js "bengali",    countIf (inRange 2432 2559) sample);   (* 0980-09FF *)
    (js "gujarati",   countIf (inRange 2688 2815) sample);   (* 0A80-0AFF *)
    (js "punjabi",    countIf (inRange 2560 2687) sample);   (* 0A00-0A7F *)
    (js "latin",      countIf isAlpha sample) ].

(** [Object.entries(scripts).reduce(...)], from [{script: null, count: 0}]. *)
Definition maxScriptOf (scripts : list (jstring * nat)) : option jstring * nat :=
  fold_left
    (fun max entry =>
       if (snd max <? snd entry)%nat then (Some (fst entry), snd entry) else max)
    scripts (None, 0%nat).

Definition scriptMap : list (jstring * jstring) :=
  [ (js "tamil", js "tamil"); (js "telugu", js "telugu");
    (js "kannada", js "kannada"); (js "malayalam", js "malayalam");
    (js "bengali", js "bengali"); (js "gujarati", js "gujarati");
    (js "punjabi", js "punjabi"); (js "devanagari", js "hindi");
    (js "latin", js "english") ].

(** [scriptMap[maxScript.script]]; the key is a name of [scripts] or null. *)
Definition scriptLanguage (script : option jstring) : option jstring :=
  match script with
  | Some name => assoc name scriptMap
  | None => None
  end.

Definition ratio (count total : nat) : Q :=
  (inject_Z (Z.of_nat count) / inject_Z (Z.of_nat total))%Q.

Definition orElse {A : Type} (first : option A) (next : A) : A :=
  match first with Some a => a | None => next end.

Section Analysis.

(** The statistical classifier of the franc package. *)
Variable franc : jstring -> jstring.

(** Step 1 of [analyzeTextLanguage]. *)
Definition scriptDetection (maxScript : option jstring * nat) (scriptRatio : Q)
  : option TextResult :=
  if (50 <? snd maxScript)%nat && Qlt_bool 0.05 scriptRatio then
    match scriptLanguage (fst maxScript) with
    | Some lang =>
        if negb (jstring_eqb lang (js "english"))
        then Some (mkTextResult (Some lang) (Qmin 0.95 (scriptRatio * 10))
                                (js "script-detection"))
        else None
    | None => None
    end
  else None.

(** Step 2. *)
Definition statisticalDetection (cleanText : jstring)
           (maxScript : option jstring * nat) (scriptRatio : Q)
  : option TextResult :=
  if (100 <=? List.length cleanText)%nat then
    let detected := franc cleanText in
    let lang := match assoc detected FRANC_TO_LANGUAGE_NAME with
                | Some l => l
                | None => None
                end in
    match lang with
    | Some l =>
        if negb (jstring_eqb l (js "english"))
        then Some (mkTextResult (Some l) 0.7 (js "franc-statistical"))
        else if Qlt_bool 0.3 scriptRatio
                && match fst maxScript with
                   | Some name => jstring_eqb name (js "latin")
                   | None => false
                   end
             then Some (mkTextResult (Some (js "english")) 0.6 (js "franc-english"))
             else None
    | None => None
    end
  else None.

(** Step 3. *)
Definition scriptFallback (maxScript : option jstring * nat) : option TextResult :=
  if (20 <? snd maxScript)%nat then
    match scriptLanguage (fst maxScript) with
    | Some lang => Some (mkTextResult (Some lang) 0.4 (js "script-fallback"))
    | None => None
    end
  else None.

Definition analyzeTextLanguage (text : jstring) : TextResult :=
  let cleanText := trim (collapseSpaces false text) in
  if (List.length cleanText <? 50)%nat
  then mkTextResult None 0 (js "insufficient-text")
  else
    let sample := substring0 5000 cleanText in
    let scripts := scriptCounts sample in
    let totalChars := List.length sample in
    let maxScript := maxScriptOf scripts in
    let scriptRatio := ratio (snd maxScript) totalChars in
    orElse (scriptDetection maxScript scriptRatio)
      (orElse (statisticalDetection cleanText maxScript scriptRatio)
         (orElse (scriptFallback maxScript)
            (mkTextResult None 0 (js "undetermined")))).

End Analysis.

(** ** detectLanguageFromResources *)

Definition hyphenOrUnderscore (c : N) : bool := (c =? 45) || (c =? 95).  (* [-_] *)

Definition localeOf (code country : string) : regex :=
  seqs [L code; Cls hyphenOrUnderscore; L country].

Definition resourcePatterns : list (jstring * regex) :=
  [ (js "ta", alts [L "tamil"; localeOf "ta" "in"]);
    (js "te", alts [L "telugu"; localeOf "te" "in"]);
    (js "hi", alts [L "hindi"; localeOf "hi" "in"]);
    (js "kn", alts [L "kannada"; localeOf "kn" "in"]);
    (js "ml", alts [L "malayalam"; localeOf "ml" "in"]);
    (js "bn", alts [L "bengali"; L "bangla"; localeOf "bn" "in"]);
    (js "mr", alts [L "marathi"; localeOf "mr" "in"]);
    (js "gu", alts [L "gujarati"; localeOf "gu" "in"]);
    (js "pa", alts [L "punjabi"; localeOf "pa" "in"]);
    (js "en", alts [localeOf "en" "us"; localeOf "en" "gb"; L "english"]) ].

(** [for (const [key, pattern] of Object.entries(table)) if (pattern.test(s)) return key] *)
Fixpoint firstMatch (table : list (jstring * regex)) (s : jstring) : option jstring :=
  match table with
  | [] => None
  | (key, pattern) :: table' =>
      if test pattern s then Some key else firstMatch table' s
  end.

Definition detectLanguageFromResources (resources : jstring) : option jstring :=
  firstMatch resourcePatterns resources.

(** ** normalizeLanguageCode *)

(** [/^[a-z]{2}$/] and [/^([a-z]{2})[-_]/] *)
Definition isoCodePattern : regex :=
  seqs [Bol; Exactly2 (Cls isLowerAscii); Eol].
Definition localePattern : regex :=
  seqs [Bol; Exactly2 (Cls isLowerAscii); Cls hyphenOrUnderscore].

Definition langMap : list (jstring * jstring) :=
  [ (js "tamil", js "ta"); (js "telugu", js "te"); (js "hindi", js "hi");
    (js "kannada", js "kn"); (js "malayalam", js "ml"); (js "english", js "en");
    (js "bengali", js "bn"); (js "bangla", js "bn"); (js "marathi", js "mr");
    (js "punjabi", js "pa"); (js "gujarati", js "gu"); (js "urdu", js "ur");
    (js "assamese", js "as"); (js "odia", js "or"); (js "oriya", js "or") ].

Definition normalizeLanguageCode (v : jsval) : jsval :=
  match v with
  | VString ((_ :: _) as s) =>
      let normalized := trim (toLowerCase s) in
      if test isoCodePattern normalized then VString normalized
      else if test localePattern normalized
           then VString (firstn 2 normalized)          (* localeMatch[1] *)
           else
             let found := literalGet langMap normalized in
             if truthy found then found else VNull     (* langMap[normalized] || null *)
  | _ => VNull
  end.

(** ** detectLanguageFromDescription *)

Definition mentionKeywords : regex :=
  alts [L "language"; L "channel"; L "tv"; L "music"; L "news"; L "cinema";
        L "movies"; L "satellite"].

(** [/\b(w1|w2)\s+(language|channel|...)\b/i] *)
Definition mentionOf (words : list string) : regex :=
  seqs [WordB; alts (List.map L words); Plus Space; mentionKeywords; WordB].

Definition languageMentions : list (jstring * regex) :=
  [ (js "tamil", mentionOf ["tamil"; "tamizh"]);
    (js "telugu", mentionOf ["telugu"]);
    (js "hindi", mentionOf ["hindi"]);
    (js "kannada", mentionOf ["kannada"]);
    (js "malayalam", mentionOf ["malayalam"]);
    (js "bengali", mentionOf ["bengali"; "bangla"]);
    (js "marathi", mentionOf ["marathi"]);
    (js "gujarati", mentionOf ["gujarati"]);
    (js "punjabi", mentionOf ["punjabi"]) ].

Definition detectLanguageFromDescription (description : jsval) : option jstring :=
  match description with
  | VString ((_ :: _) as s) => firstMatch languageMentions (toLowerCase s)
  | _ => None
  end.

(** ** aggregateLanguageSignals *)

(** A signal; the two extra fields of the body-text signal are never read. *)
Record Signal : Type := mkSignal {
  source : jstring;
  value : jsval;
  weight : Q
}.

(** [scores[key] = (scores[key] || 0) + w], keeping the insertion order of
    the keys, which is the order of [Object.entries]. *)
Fixpoint addScore (key : jstring) (w : Q) (scores : list (jstring * Q))
  : list (jstring * Q) :=
  match scores with
  | [] => [(key, (0 + w)%Q)]
  | (k, total) :: scores' =>
      if jstring_eqb k key
      then (k, ((if Qeq_bool total 0 then 0 else total) + w)%Q) :: scores'
      else (k, total) :: addScore key w scores'
  end.

Definition scoreSignals (signals : list Signal) : list (jstring * Q) :=
  fold_left
    (fun scores signal =>
       let langCode := normalizeLanguageCode (value signal) in
       if truthy langCode
       then addScore (toPropertyKey langCode) (weight signal) scores
       else scores)
    signals [].

(** [Array.prototype.sort] is stable: [e], which stood before every
    element of [sorted], goes after exactly those that compare strictly
    before it. *)
Fixpoint insertSorted {A : Type} (cmp : A -> A -> Q) (e : A) (sorted : list A) : list A :=
  match sorted with
  | [] => [e]
  | x :: sorted' =>
      if Qlt_bool (cmp x e) 0 then x :: insertSorted cmp e sorted'
      else e :: sorted
  end.

Definition sortBy {A : Type} (cmp : A -> A -> Q) (l : list A) : list A :=
  fold_right (insertSorted cmp) [] l.

Definition aggregateLanguageSignals (signals : list Signal) : option jstring :=
  if (List.length signals =? 0)%nat then None
  else
    let entries := scoreSignals signals in
    if (List.length entries =? 0)%nat then None
    else
      match sortBy (fun a b => (snd b - snd a)%Q) entries with
      | first :: _ => Some (fst first)
      | [] => None
      end.

(** ** HTML documents *)

(** What the program reads from a document: the results of its cheerio
    selectors and the text html-to-text renders.  [None] is [undefined]. *)
Record Page : Type := mkPage {
  titleText : jstring;                    (* $('title').text() *)
  descriptionContent : option jstring;    (* meta[name="description"] content *)
  ogTitleContent : option jstring;        (* meta[property="og:title"] *)
  ogDescriptionContent : option jstring;  (* meta[property="og:description"] *)
  ogSiteNameContent : option jstring;     (* meta[property="og:site_name"] *)
  htmlLangAttr : option jstring;          (* $('html').attr('lang') *)
  contentLanguageContent : option jstring;(* meta[http-equiv="content-language"] *)
  ogLocaleContent : option jstring;       (* meta[property="og:locale"] *)
  languageContent : option jstring;       (* meta[name="language"] *)
  scriptSrcs : list jstring;              (* src of every script[src] *)
  linkHrefs : list jstring;               (* href of every link[href] *)
  visibleText : jstring                   (* convert(html, {...}) *)
}.

(** [x || null] and [x || ''] on a string or undefined. *)
Definition orNull (x : option jstring) : option jstring :=
  match x with
  | Some ((_ :: _) as s) => Some s
  | _ => None
  end.

Definition orEmpty (x : option jstring) : jstring :=
  match x with Some s => s | None => [] end.

(** ** detectLanguageFromMetadata *)

Record Metadata : Type := mkMetadata {
  title : option jstring;
  description : option jstring;
  ogTitle : option jstring;
  ogDescription : option jstring;
  ogSiteName : option jstring
}.

Inductive Tier : Type := high | low.

Record MetadataResult : Type := mkMetadataResult {
  metaLanguage : option jstring;     (* language *)
  metaConfidence : Tier;             (* confidence *)
  signals : list Signal;
  metadata : Metadata
}.

(** [if (x) signals.push({source, value: x, weight})] *)
Definition pushIf (x : option jstring) (src : string) (w : Q) (acc : list Signal)
  : list Signal :=
  match orNull x with
  | Some v => acc ++ [mkSignal (js src) (VString v) w]
  | None => acc
  end.

Definition strongSources : list jstring :=
  [js "html-lang"; js "meta-content-language"; js "og-locale"; js "meta-language"].

Definition detectLanguageFromMetadata (html : Page) : MetadataResult :=
  let metadata :=
    mkMetadata (orNull (Some (trim (titleText html))))
               (orNull (descriptionContent html))
               (orNull (ogTitleContent html))
               (orNull (ogDescriptionContent html))
               (orNull (ogSiteNameContent html)) in
  let descriptionText :=
    orEmpty (description metadata) ++ js " " ++ orEmpty (ogDescription metadata)
      ++ js " " ++ orEmpty (title metadata) in
  let languageHint := detectLanguageFromDescription (VString descriptionText) in
  let signals := pushIf languageHint "description-hint" 9 [] in
  let signals := pushIf (htmlLangAttr html) "html-lang" 10 signals in
  let signals := pushIf (contentLanguageContent html) "meta-content-language" 8 signals in
  let signals := pushIf (ogLocaleContent html) "og-locale" 7 signals in
  let signals := pushIf (languageContent html) "meta-language" 7 signals in
  let scripts := join (js " ") (scriptSrcs html) in
  let links := join (js " ") (linkHrefs html) in
  let resources := toLowerCase (scripts ++ js " " ++ links) in
  let resourceLang := detectLanguageFromResources resources in
  let signals := pushIf resourceLang "resource-analysis" 3 signals in
  let lang := aggregateLanguageSignals signals in
  let hasStrongSignal :=
    existsb (fun s => existsb (jstring_eqb (source s)) strongSources) signals in
  mkMetadataResult lang (if hasStrongSignal then high else low) signals metadata.

(** ** detectLanguageFromBodyText *)

Section BodyText.

Variable franc : jstring -> jstring.

Definition detectLanguageFromBodyText (html : Page) : TextResult :=
  let bodyText := visibleText html in
  match detectLanguageFromDescription (VString bodyText) with
  | Some languageHint =>
      mkTextResult (Some languageHint) 0.85 (js "body-language-mention")
  | None => analyzeTextLanguage franc bodyText
  end.

End BodyText.

(** ** detectLanguageFromHTML *)

Record Options : Type := mkOptions { metadataOnly : bool }.

(** [options = {}] *)
Definition defaultOptions : Options := mkOptions false.

Section Resolver.

(** The resolver is stated over the two analyzers it calls, so that a
    test double can stand for either. *)
Context {Html : Type}.
Variable metadataAnalyzer : Html -> MetadataResult.
Variable bodyTextAnalyzer : Html -> TextResult.

(** The local array [signals] once steps 1 and 2 have pushed into it. *)
Definition combinedSignals (html : Html) (options : Options) : list Signal :=
  let metadataResult := metadataAnalyzer html in
  let signals :=
    List.map (fun signal =>
                mkSignal (source signal) (value signal) (weight signal * 0.5))
             (signals metadataResult) in
  if negb (metadataOnly options) then
    let bodyResult := bodyTextAnalyzer html in
    match language bodyResult with
    | Some ((_ :: _) as lang) =>
        let bodyWeight := if jstring_eqb lang (js "en") then 8%Q else 15%Q in
        signals ++ [mkSignal (js "body-text") (VString lang) bodyWeight]
    | _ => signals
    end
  else signals.

(** The two early returns of step 2. *)
Definition bodyOverride (metadataLang : option jstring) (bodyResult : TextResult)
  : option jstring :=
  match language bodyResult with
  | Some ((_ :: _) as lang) =>
      if match metadataLang with
         | Some m => jstring_eqb m (js "en")
         | None => false
         end
         && negb (jstring_eqb lang (js "en"))
         && Qle_bool 0.5 (confidence bodyResult)
      then Some lang
      else if Qle_bool 0.7 (confidence bodyResult)
           then Some lang
           else None
  | _ => None
  end.

Definition detectLanguageFromHTMLWith (html : Html) (options : Options)
  : option jstring :=
  let metadataResult := metadataAnalyzer html in
  let metadataLang := metaLanguage metadataResult in
  match (if negb (metadataOnly options)
         then bodyOverride metadataLang (bodyTextAnalyzer html)
         else None) with
  | Some lang => Some lang
  | None =>
      if metadataOnly options then metadataLang
      else aggregateLanguageSignals (combinedSignals html options)
  end.

End Resolver.

Definition detectLanguageFromHTML (franc : jstring -> jstring)
           (html : Page) (options : Options) : option jstring :=
  detectLanguageFromHTMLWith detectLanguageFromMetadata
                             (detectLanguageFromBodyText franc) html options.

(** ** detectExplicitLanguageInName *)

(** [/\bw\b/i] *)
Definition wholeWord (w : string) : regex := seqs [WordB; L w; WordB].

Definition explicitPatterns : list (jstring * regex) :=
  [ (js "tamil", alts [wholeWord "tamil"; wholeWord "tamizh"]);
    (js "telugu", wholeWord "telugu");
    (js "kannada", wholeWord "kannada");
    (js "malayalam", wholeWord "malayalam");
    (js "hindi", wholeWord "hindi");
    (js "bengali", alts [wholeWord "bengali"; wholeWord "bangla"]);
    (js "marathi", wholeWord "marathi");
    (js "punjabi", alts [wholeWord "punjabi"; wholeWord "punjab"]);
    (js "gujarati", wholeWord "gujarati");
    (js "english", wholeWord "english");
    (js "urdu", wholeWord "urdu");
    (js "bhojpuri", wholeWord "bhojpuri") ].

Definition detectExplicitLanguageInName (channelName : jsval)
  : completion (option jstring) :=
  cbind (callToLowerCase channelName) (fun name =>
    Normal (firstMatch explicitPatterns name)).

(** ** detectLanguageByPattern *)

(** [/tv|channel|news|bharat|india|desi/], without the [i] flag *)
Definition genericTerms : regex :=
  alts (List.map (fun w => lit (js w))
                 ["tv"; "channel"; "news"; "bharat"; "india"; "desi"]).

Definition detectLanguageByPattern (channelName : jsval) : completion jstring :=
  cbind (callToLowerCase channelName) (fun name =>
    match firstMatch LANGUAGE_PATTERNS name with
    | Some lang => Normal lang
    | None =>
        if test genericTerms name then Normal (js "hindi")
        else Normal (js "unknown")
    end).

(** ** The cache ([class LanguageCache]) *)

Record CacheEntry : Type := mkCacheEntry {
  entryLanguage : jstring;     (* language *)
  entrySource : jstring;       (* source *)
  timestamp : N
}.

(** [cache] is the object held in memory, [cacheFile] what [save] last
    wrote.  A write that fails is caught and logged by [save]; it is not
    modelled, detection never reads [dirty] or the file. *)
Record LanguageCache : Type := mkLanguageCache {
  cache : gmap (list N) CacheEntry;
  pendingWrites : nat;
  dirty : bool;
  cacheFile : gmap (list N) CacheEntry
}.

Definition cacheSaveInterval : nat := 20.

Definition save (c : LanguageCache) : LanguageCache :=
  mkLanguageCache (cache c) (pendingWrites c) false (cache c).

(** [get(domain)]: [this.cache[domain]], undefined when absent. *)
Definition get (c : LanguageCache) (domain : jstring) : option CacheEntry :=
  cache c !! domain.

(** [has(domain)]: [domain in this.cache].  The operator also sees the
    names inherited from [Object.prototype]; none of them contains a dot,
    and the keys used here are host names accepted by [extractDomain]
    (lemma [extractDomain_has_dot]), so only own keys matter. *)
Definition has (c : LanguageCache) (domain : jstring) : bool :=
  match cache c !! domain with Some _ => true | None => false end.

Definition set (c : LanguageCache) (domain lang src : jstring) (dateNow : N)
  : LanguageCache :=
  let c1 := mkLanguageCache (<[domain := mkCacheEntry lang src dateNow]> (cache c))
                            (S (pendingWrites c)) true (cacheFile c) in
  if (cacheSaveInterval <=? pendingWrites c1)%nat
  then let c2 := save c1 in
       mkLanguageCache (cache c2) 0 (dirty c2) (cacheFile c2)
  else c1.

(** ** The world of a detection *)

(** What [axios.get] can do: answer with a document, answer with an empty
    body, or throw (network error, timeout, status of 400 or more). *)
Inductive Response : Type :=
| RData (html : Page)
| REmpty
| RError.

Record World : Type := mkWorld {
  languageCache : LanguageCache;   (* the [cache] argument *)
  now : N;                         (* Date.now() *)
  requests : list jstring          (* URLs requested so far, latest first *)
}.

(** Computations that read and change the world and may throw. *)
Definition M (A : Type) : Type := World -> completion A * World.

Definition ret {A} (a : A) : M A := fun w => (Normal a, w).
Definition throw {A} (e : jstring) : M A := fun w => (Throw e, w).
Definition bind {A B} (m : M A) (k : A -> M B) : M B :=
  fun w => match m w with
           | (Normal a, w') => k a w'
           | (Throw e, w') => (Throw e, w')
           end.
Definition lift {A} (c : completion A) : M A := fun w => (c, w).
(** [try { body } catch (error) { handler }] *)
Definition tryCatch {A} (body : M A) (handler : M A) : M A :=
  fun w => match body w with
           | (Normal a, w') => (Normal a, w')
           | (Throw _, w') => handler w'
           end.

Notation "x <- m ;; k" := (bind m (fun x => k))
  (at level 100, m at next level, right associativity).
Notation "m ;;; k" := (bind m (fun _ => k))
  (at level 100, right associativity).

Definition cacheHas (domain : jstring) : M bool :=
  fun w => (Normal (has (languageCache w) domain), w).
Definition cacheGet (domain : jstring) : M (option CacheEntry) :=
  fun w => (Normal (get (languageCache w) domain), w).
Definition cacheSet (domain lang src : jstring) : M unit :=
  fun w => (Normal tt,
            mkWorld (set (languageCache w) domain lang src (now w))
                    (now w) (requests w)).
Definition sleep (ms : N) : M unit :=
  fun w => (Normal tt, mkWorld (languageCache w) (now w + ms) (requests w)).

(** ** fetchWebsite and detectLanguage *)

Record Channel : Type := mkChannel {
  name : jsval;
  tvgId : jsval
}.

Record Detection : Type := mkDetection {
  detectedLanguage : jstring;   (* language *)
  detectedSource : jstring      (* source *)
}.

(** [CONFIG.maxRetries] *)
Definition maxRetries : nat := 1.

Section Orchestrator.

Variable franc : jstring -> jstring.
(** The network: what the request number [n] of the run gets for a URL. *)
Variable network : nat -> jstring -> Response.

Definition axiosGet (url : jstring) : M Response :=
  fun w => (Normal (network (List.length (requests w)) url),
            mkWorld (languageCache w) (now w) (url :: requests w)).

(** The inner loop of [fetchWebsite] with [attempts] attempts left;
    [None] when it ends without returning. *)
Fixpoint attemptLoop (url : jstring) (attempts : nat) : M (option Page) :=
  match attempts with
  | O => ret None
  | S attempts' =>
      response <- axiosGet url ;;
      match response with
      | RData html => ret (Some html)
      | REmpty => attemptLoop url attempts'
      | RError =>
          match attempts' with
          | O => ret None                       (* attempt === retries: break *)
          | S _ => sleep 300 ;;; attemptLoop url attempts'
          end
      end
  end.

Fixpoint urlLoop (domain : jstring) (urls : list jstring) (retries : nat) : M Page :=
  match urls with
  | [] => throw (js "Failed to fetch any URL for domain: " ++ domain)
  | url :: urls' =>
      found <- attemptLoop url (S retries) ;;
      match found with
      | Some html => ret html
      | None => urlLoop domain urls' retries
      end
  end.

Definition fetchWebsite (domain : jstring) : M Page :=
  urlLoop domain
          [js "https://www." ++ domain; js "https://" ++ domain;
           js "http://www." ++ domain]
          maxRetries.

(** Strategy 2 of [detectLanguage]: [Some] when the [try] block returns. *)
Definition webDetection (domain : jstring) : M (option Detection) :=
  tryCatch
    (html <- fetchWebsite domain ;;
     match detectLanguageFromHTML franc html defaultOptions with
     | Some ((_ :: _) as detectedLang) =>
         if negb (jstring_eqb detectedLang (js "unknown")) then
           cacheSet domain detectedLang (js "web") ;;;
           ret (Some (mkDetection detectedLang (js "web")))
         else ret None
     | _ => ret None
     end)
    (ret None).

(** Strategy 3. *)
Definition patternFallback (channel : Channel) (domain : option jstring)
  : M Detection :=
  patternLang <- lift (detectLanguageByPattern (name channel)) ;;
  match domain with
  | Some d => cacheSet d patternLang (js "pattern")
  | None => ret tt
  end ;;;
  ret (mkDetection patternLang (js "pattern")).

Definition detectLanguage (channel : Channel) : M Detection :=
  domain <- lift (extractDomain (tvgId channel)) ;;
  explicitLang <- lift (detectExplicitLanguageInName (name channel)) ;;
  match explicitLang with
  | Some lang =>
      match domain with
      | Some d => cacheSet d lang (js "name-explicit")
      | None => ret tt
      end ;;;
      ret (mkDetection lang (js "name-explicit"))
  | None =>
      match domain with
      | Some d =>
          hit <- cacheHas d ;;
          if hit then
            cached <- cacheGet d ;;
            match cached with
            | Some entry =>
                ret (mkDetection (entryLanguage entry)
                                 (js "cached-" ++ entrySource entry))
            | None => throw (js "TypeError: Cannot read properties of undefined")
            end
          else
            web <- webDetection d ;;
            match web with
            | Some detection => ret detection
            | None => patternFallback channel domain
            end
      | None => patternFallback channel domain
      end
  end.

End Orchestrator.

(** ** Notions used to state the properties *)

(** *** What a regular expression matches *)

Definition pos : Type := (option N * jstring)%type.

(** Iteration with progress, the relation behind [Star]. *)
Inductive iter (R : pos -> pos -> Prop) : pos -> pos -> Prop :=
| iter_refl : forall x, iter R x x
| iter_step : forall x y z,
    R x y -> (List.length (snd y) < List.length (snd x))%nat ->
    iter R y z -> iter R x z.

(** [denote r x y]: [r] matches from position [x] to position [y]. *)
Fixpoint denote (r : regex) : pos -> pos -> Prop :=
  match r with
  | Eps => fun x y => x = y
  | Cls p => fun x y => exists c, snd x = c :: snd y /\ p c = true /\ fst y = Some c
  | Seq a b => fun x y => exists z, denote a x z /\ denote b z y
  | Alt a b => fun x y => denote a x y \/ denote b x y
  | Star a => iter (denote a)
  | Bol => fun x y => fst x = None /\ x = y
  | Eol => fun x y => snd x = [] /\ x = y
  | WordB => fun x y => atWordBoundary (fst x) (snd x) = true /\ x = y
  | NotAhead a => fun x y => ~ (exists z, denote a x z) /\ x = y
  end.

(** The unit before the position reached after reading [u]. *)
Definition lastOr (prev : option N) (u : jstring) : option N :=
  match rev u with
  | c :: _ => Some c
  | [] => prev
  end.

(** Patterns without anchors, boundaries or lookahead, and their words. *)
Fixpoint simple (r : regex) : bool :=
  match r with
  | Eps | Cls _ => true
  | Seq a b | Alt a b => simple a && simple b
  | Star a => simple a
  | Bol | Eol | WordB | NotAhead _ => false
  end.

Fixpoint lang (r : regex) : jstring -> Prop :=
  match r with
  | Eps => fun u => u = []
  | Cls p => fun u => exists c, u = [c] /\ p c = true
  | Seq a b => fun u => exists u1 u2, u = u1 ++ u2 /\ lang a u1 /\ lang b u2
  | Alt a b => fun u => lang a u \/ lang b u
  | Star a => fun u => exists us, u = concat us /\ Forall (fun w => lang a w /\ w <> []) us
  | Bol | Eol | WordB | NotAhead _ => fun _ => False
  end.

(** *** Host names, as [extractDomain] accepts them *)

(** A label: letters and digits, hyphens inside only. *)
Definition Label (l : jstring) : Prop :=
  exists c, isAlnum c = true /\
    (l = [c] \/
     exists inner d, l = c :: inner ++ [d]
                     /\ Forall (fun x => isAlnumHyphen x = true) inner
                     /\ isAlnum d = true).

(** A label of two letters or more. *)
Definition AlphaLabel (l : jstring) : Prop :=
  (2 <= List.length l)%nat /\ Forall (fun x => isAlpha x = true) l.

(** A first label followed by one or more alphabetic labels, each after a dot. *)
Definition Hostname (d : jstring) : Prop :=
  exists first rest,
    Label first /\ rest <> [] /\ Forall AlphaLabel rest
    /\ d = first ++ concat (List.map (cons 46) rest).

(** The candidate of [extractDomain]: the text before the first [@], trimmed. *)
Fixpoint beforeFirst (sep : N) (s : jstring) : jstring :=
  match s with
  | [] => []
  | c :: s' => if c =? sep then [] else c :: beforeFirst sep s'
  end.

Definition candidate (s : jstring) : jstring := trim (beforeFirst 64 s).

(** The grammar in the words of the specification: one or more labels
    separated by dots, each alphanumeric with optional internal hyphens,
    the last one of two letters or more. *)
Definition isLabel (l : jstring) : bool :=
  match l with
  | [] => false
  | c :: _ => isAlnum c && forallb isAlnumHyphen l
              && match rev l with d :: _ => isAlnum d | [] => false end
  end.

Definition specHostname (d : jstring) : bool :=
  let labels := split 46 d in
  forallb isLabel labels
  && match rev labels with
     | tld :: _ => (2 <=? List.length tld)%nat && forallb isAlpha tld
     | [] => false
     end.

(** *** Whole-word mentions *)

Definition sameIgnoringCase (u w : jstring) : Prop :=
  List.map asciiLower u = List.map asciiLower w.

(** [w] stands in [s] between two word boundaries, ASCII case ignored. *)
Definition OccursAsWord (w s : jstring) : Prop :=
  exists pre u post,
    s = pre ++ u ++ post /\ sameIgnoringCase u w
    /\ atWordBoundary (lastOr None pre) (u ++ post) = true
    /\ atWordBoundary (lastOr (lastOr None pre) u) post = true.

Definition Mentions (words : list string) (s : jstring) : Prop :=
  exists w, In w words /\ OccursAsWord (js w) s.

(** The words of [explicitPatterns], language by language. *)
Definition explicitWords : list (jstring * list string) :=
  [ (js "tamil", ["tamil"; "tamizh"]); (js "telugu", ["telugu"]);
    (js "kannada", ["kannada"]); (js "malayalam", ["malayalam"]);
    (js "hindi", ["hindi"]); (js "bengali", ["bengali"; "bangla"]);
    (js "marathi", ["marathi"]); (js "punjabi", ["punjabi"; "punjab"]);
    (js "gujarati", ["gujarati"]); (js "english", ["english"]);
    (js "urdu", ["urdu"]); (js "bhojpuri", ["bhojpuri"]) ].

(** [lang] is the first language of the table that [s] mentions. *)
Definition FirstMention (s lang : jstring) : Prop :=
  exists before words after,
    explicitWords = before ++ (lang, words) :: after
    /\ Mentions words s
    /\ Forall (fun entry => ~ Mentions (snd entry) s) before.

(** *** Language names and codes *)

(** [LANGUAGE_CODES] *)
Definition LANGUAGE_CODES : list (jstring * jstring) :=
  [ (js "tamil", js "ta"); (js "telugu", js "te"); (js "hindi", js "hi");
    (js "kannada", js "kn"); (js "malayalam", js "ml"); (js "english", js "en");
    (js "bengali", js "bn"); (js "marathi", js "mr"); (js "punjabi", js "pa");
    (js "gujarati", js "gu"); (js "urdu", js "ur"); (js "bhojpuri", js "bh");
    (js "assamese", js "as"); (js "odia", js "or");
    (js "unknown", js "unknown") ].

(** The full names: the keys of [LANGUAGE_CODES], [unknown] included. *)
Definition languageNames : list jstring := List.map fst LANGUAGE_CODES.

(** The two-letter codes of the fourteen supported languages. *)
Definition supportedCodes : list jstring :=
  List.filter (fun code => (List.length code =? 2)%nat) (List.map snd LANGUAGE_CODES).

Definition isTwoLetterCode (s : jstring) : bool :=
  match s with
  | [a; b] => isLowerAscii a && isLowerAscii b
  | _ => false
  end.

(** *** Totals of an aggregation *)

(** The code a signal counts for, when its value normalizes to a string. *)
Definition codeOf (signal : Signal) : option jstring :=
  match normalizeLanguageCode (value signal) with
  | VString code => Some code
  | _ => None
  end.

(** The sum of the weights of the signals that count for [code]. *)
Fixpoint totalOf (code : jstring) (signals : list Signal) : Q :=
  match signals with
  | [] => 0
  | signal :: rest =>
      (match codeOf signal with
       | Some c => if jstring_eqb c code then weight signal else 0
       | None => 0
       end + totalOf code rest)%Q
  end.

(** A value that is not, once lower-cased and trimmed, one of the two
    lower-case names every object literal inherits. *)
Definition plainValue (signal : Signal) : Prop :=
  forall s, value signal = VString s ->
            trim (toLowerCase s) <> js "constructor"
            /\ trim (toLowerCase s) <> js "__proto__".

(** [scores] is the table of the signals [seen]: one entry per code, in
    the order in which the codes first occur, each with its total. *)
Definition ScoresOf (scores : list (jstring * Q)) (seen : list Signal) : Prop :=
  List.NoDup (List.map fst scores)
  /\ (forall c t, In (c, t) scores -> (t == totalOf c seen)%Q)
  /\ (forall s c, In s seen -> codeOf s = Some c -> In c (List.map fst scores))
  /\ (forall k1 c k2,
         List.map fst scores = k1 ++ c :: k2 ->
         exists before s after,
           seen = before ++ s :: after /\ codeOf s = Some c
           /\ forall x c', In x before -> codeOf x = Some c' -> In c' k1).

(** One step of the loop over the signals, on values that normalize to a
    string or to null. *)
Definition scoreStep (scores : list (jstring * Q)) (signal : Signal)
  : list (jstring * Q) :=
  match codeOf signal with
  | Some c => addScore c (weight signal) scores
  | None => scores
  end.

(** *** The share of the winning script *)

(** [scriptRatio] of [analyzeTextLanguage] for a text long enough to be
    analysed. *)
Definition winningShare (text : jstring) : Q :=
  let sample := substring0 5000 (trim (collapseSpaces false text)) in
  ratio (snd (maxScriptOf (scriptCounts sample))) (List.length sample).
Definition memberOf (x : jstring) (l : list jstring) : bool :=
  existsb (jstring_eqb x) l.

(** ** Tactics *)

(** Facts about character classes: unfold to comparisons and decide. *)
Ltac class_facts :=
  unfold isTwoLetterCode, lowerUnit, asciiLower, isWhiteSpace, isLineTerminator,
    isWordChar, isAlnumHyphen, isAlnum, isAlpha, isDigit, isLowerAscii,
    isUpperAscii, hyphenOrUnderscore, inRange in *;
  repeat match goal with
         | H : _ && _ = true |- _ => apply andb_true_iff in H as [? ?]
         | H : (_ <=? _) = true |- _ => apply N.leb_le in H
         | H : (_ =? _) = true |- _ => apply N.eqb_eq in H
         end;
  repeat match goal with
         | |- context [?a <=? ?b] => destruct (N.leb_spec a b); try lia
         | |- context [?a =? ?b] => destruct (N.eqb_spec a b); try lia
         end;
  try reflexivity; try discriminate; try lia.

(** ** Sample inputs *)

(** [<html lang="en">] with three more English locale tags. *)
Definition englishTemplatePage : Page :=
  mkPage [] None None None None
         (Some (js "en")) (Some (js "en")) (Some (js "en_US")) (Some (js "en"))
         [] [] [].

(** A body-text result as a test double returns it. *)
Definition bodyTa : TextResult := mkTextResult (Some (js "ta")) 0.6 (js "script-detection").

(** [<html lang="fr">] and nothing else. *)
Definition frenchPage : Page :=
  mkPage [] None None None None (Some (js "fr")) None None None [] [] [].

(** A page of English prose, more than a hundred characters long. *)
Definition englishProse : jstring :=
  js "Watch the latest breaking headlines and live coverage from around the world every day on our network and stay informed with our reporters".

Definition englishPage : Page :=
  mkPage [] None None None None None None None None [] [] englishProse.

(** Classifiers: one that never decides, one that answers English. *)
Definition francUndetermined (text : jstring) : jstring := js "und".
Definition francEnglish (text : jstring) : jstring := js "eng".
(** One that answers Tamil, as franc does for a text whose only script is
    Tamil. *)
Definition francTamil (text : jstring) : jstring := js "tam".

(** A network on which every request fails. *)
Definition offline (n : nat) (url : jstring) : Response := RError.

Definition emptyCache : LanguageCache := mkLanguageCache ∅ 0 false ∅.

Definition freshWorld : World := mkWorld emptyCache 1000 [].

(** A world whose cache says [hindi] for [xyz.in]. *)
Definition staleWorld : World :=
  mkWorld (mkLanguageCache
             (<[js "xyz.in" := mkCacheEntry (js "hindi") (js "web") 5]> ∅)
             1 true ∅)
          1000 [].

Definition xyzTamilNews : Channel :=
  mkChannel (VString (js "XYZ Tamil News")) (VString (js "xyz.in@HD")).

Definition xyzNews : Channel :=
  mkChannel (VString (js "XYZ News")) (VString (js "xyz.in@HD")).

(** A thousand characters of which [n] are Tamil letters, the rest digits. *)
Definition tamilText (n : nat) : jstring :=
  repeat 2965 n ++ repeat 49 (1000 - n).

(** [total] characters of which [letters] are Tamil letters, the rest digits. *)
Definition tamilAmong (letters total : nat) : jstring :=
  repeat 2965 letters ++ repeat 49 (total - letters).


(** ** LanguageCache.flush *)

(** [flush()]: save when something was set since the last save. *)
Definition flush (c : LanguageCache) : LanguageCache :=
  if dirty c
  then let c1 := save c in
       mkLanguageCache (cache c1) 0 (dirty c1) (cacheFile c1)
  else c.

(** ** Notions used to state further properties *)

(** The requests of [fetchWebsite] in the order it makes them: the three
    URLs, each [maxRetries + 1] times. *)
Definition fetchSchedule (domain : jstring) : list jstring :=
  flat_map (fun url => repeat url (S maxRetries))
           [js "https://www." ++ domain; js "https://" ++ domain;
            js "http://www." ++ domain].

(** The document of a response, when it carries one. *)
Definition documentOf (response : Response) : option Page :=
  match response with
  | RData html => Some html
  | REmpty | RError => None
  end.

(** No request of [urls], sent in this order from request number [start]
    on, is answered with a document. *)
Definition Unanswered (network : nat -> jstring -> Response) (start : nat)
           (urls : list jstring) : Prop :=
  forall i url, nth_error urls i = Some url ->
                documentOf (network (start + i)%nat url) = None.

(** [w] occurs in [s]; [w] occurs in [s] up to ASCII case. *)
Definition Contains (w s : jstring) : Prop :=
  exists pre post, s = pre ++ w ++ post.

Definition ContainsIgnoringCase (w s : jstring) : Prop :=
  exists pre u post, s = pre ++ u ++ post /\ sameIgnoringCase u w.

(** The words of [genericTerms]. *)
Definition genericWords : list string :=
  ["tv"; "channel"; "news"; "bharat"; "india"; "desi"].

(** A sequence of [set] calls, and what it puts into a map. *)
Definition write (c : LanguageCache) (e : jstring * CacheEntry) : LanguageCache :=
  set c (fst e) (entryLanguage (snd e)) (entrySource (snd e)) (timestamp (snd e)).

Definition writeAll (c : LanguageCache) (writes : list (jstring * CacheEntry))
  : LanguageCache :=
  fold_left write writes c.

Definition insertAll (m : gmap (list N) CacheEntry)
           (writes : list (jstring * CacheEntry)) : gmap (list N) CacheEntry :=
  fold_left (fun m e => <[fst e := snd e]> m) writes m.

(** ** Further sample inputs *)

(** [<html lang="hi">] with three more Hindi locale tags. *)
Definition hindiTemplatePage : Page :=
  mkPage [] None None None None
         (Some (js "hi")) (Some (js "hi")) (Some (js "hi_IN")) (Some (js "hi"))
         [] [] [].

Definition bodyTamilSure : TextResult :=
  mkTextResult (Some (js "tamil")) 0.7 (js "franc-statistical").


(** An English template around fifty-one Tamil letters and nine digits. *)
Definition tamilBodyPage : Page :=
  mkPage [] None None None None (Some (js "en")) None None None [] []
         (tamilAmong 51 60).

(** Two codes with the same total, Tamil seen first. *)
Definition tiedSignals : list Signal :=
  [ mkSignal (js "html-lang") (VString (js "ta-IN")) 10;
    mkSignal (js "meta-content-language") (VString (js "hi")) 8;
    mkSignal (js "resource-analysis") (VString (js "hi")) 3;
    mkSignal (js "og-locale") (VString (js "xx_1")) 7;
    mkSignal (js "body-text") (VString (js "Tamil")) 1 ].

(** Twenty-one writes, each for a domain of its own. *)
Definition sampleWrites : list (jstring * CacheEntry) :=
  List.map (fun i => (repeat 97 (S i) ++ js ".in",
                      mkCacheEntry (js "hindi") (js "pattern") (N.of_nat i)))
           (seq 0 21).

(** A cache that says [hindi] for [xyz.in]. *)
Definition staleCache : LanguageCache := languageCache staleWorld.

(* ================================================================== *)
(** * Part II: properties *)
(* ================================================================== *)

(** ** Strings *)

Lemma jstring_eqb_eq (a b : jstring) : jstring_eqb a b = true <-> a = b.
Proof.
  revert b; induction a as [|x a IH]; intros [|y b]; simpl; split;
    try congruence; try reflexivity.
  - intros H. apply andb_true_iff in H as [Hx Hab].
    apply N.eqb_eq in Hx. apply IH in Hab. congruence.
  - intros H. injection H as -> ->.
    apply andb_true_iff; split; [apply N.eqb_refl | now apply IH].
Qed.

Lemma jstring_eqb_refl (a : jstring) : jstring_eqb a a = true.
Proof. now apply jstring_eqb_eq. Qed.

Lemma jstring_eqb_neq (a b : jstring) : a <> b -> jstring_eqb a b = false.
Proof.
  intros H. destruct (jstring_eqb a b) eqn:E; [|reflexivity].
  apply jstring_eqb_eq in E. contradiction.
Qed.

(** ** The matcher agrees with [denote] *)

Section StarLoop.

Variable m : matcher.
Variable R : pos -> pos -> Prop.
Hypothesis m_spec : forall prev s k,
    m prev s k = true <-> exists y, R (prev, s) y /\ k (fst y) (snd y) = true.

Lemma starLoop_spec (fuel : nat) : forall prev s k,
    (List.length s < fuel)%nat ->
    starLoop m fuel prev s k = true
    <-> exists y, iter R (prev, s) y /\ k (fst y) (snd y) = true.
Proof.
  induction fuel as [|fuel IH]; intros prev s k Hlen; [lia|].
  simpl. rewrite orb_true_iff, m_spec. split.
  - intros [[y [Hy Hk]]|Hk].
    + apply andb_true_iff in Hk as [Hlt Hk].
      apply Nat.ltb_lt in Hlt.
      apply IH in Hk; [|lia].
      destruct Hk as [z [Hz Hk]]. exists z. split; [|exact Hk].
      apply iter_step with (y := y); simpl; auto.
      now destruct y.
    + exists (prev, s). split; [constructor | exact Hk].
  - intros [y [Hit Hk]]. inversion Hit as [x|x y' z HR Hlt Hit']; subst.
    + now right.
    + left. exists y'. split; [exact HR|].
      simpl in Hlt. apply andb_true_iff. split; [now apply Nat.ltb_lt|].
      apply IH; [lia|]. exists y. destruct y'; auto.
Qed.

End StarLoop.

Lemma run_denote (r : regex) : forall prev s k,
    run r prev s k = true
    <-> exists y, denote r (prev, s) y /\ k (fst y) (snd y) = true.
Proof.
  induction r as [|p|a IHa b IHb|a IHa b IHb|a IHa| | | |a IHa]; intros prev s k; simpl.
  - split; [intros H; exists (prev, s); auto | intros [y [<- H]]; exact H].
  - destruct s as [|c s]; simpl.
    + split; [discriminate | intros [y [[c [H _]] _]]; discriminate].
    + rewrite andb_true_iff. split.
      * intros [Hp Hk]. exists (Some c, s). split; [exists c|]; auto.
      * intros [[py sy] [[c' [H1 [H2 H3]]] Hk]]. simpl in *.
        injection H1 as -> ->. subst py. auto.
  - rewrite IHa. split.
    + intros [z [Ha Hk]]. apply IHb in Hk as [y [Hb Hk]].
      exists y. split; [exists z; destruct z; auto | exact Hk].
    + intros [y [[z [Ha Hb]] Hk]]. exists z. split; [exact Ha|].
      apply IHb. exists y. destruct z; auto.
  - rewrite orb_true_iff, IHa, IHb. split.
    + intros [[y [H Hk]]|[y [H Hk]]]; exists y; auto.
    + intros [y [[H|H] Hk]]; [left|right]; exists y; auto.
  - apply (starLoop_spec (run a) (denote a) IHa (S (List.length s))). lia.
  - destruct prev as [c|]; simpl.
    + split; [discriminate | intros [y [[H _] _]]; discriminate].
    + split; [intros H; exists (None, s); auto | intros [y [[_ <-] H]]; exact H].
  - destruct s as [|c s]; simpl.
    + split; [intros H; exists (prev, []); auto | intros [y [[_ <-] H]]; exact H].
    + split; [discriminate | intros [y [[H _] _]]; discriminate].
  - rewrite andb_true_iff. split.
    + intros [Hb Hk]. exists (prev, s). auto.
    + intros [y [[Hb <-] Hk]]. auto.
  - rewrite andb_true_iff, negb_true_iff. split.
    + intros [Hn Hk]. exists (prev, s). split; [split; [|reflexivity] | exact Hk].
      intros [z Hz].
      assert (run a prev s (fun _ _ => true) = true) as E
          by (apply IHa; exists z; auto).
      congruence.
    + intros [y [[Hn <-] Hk]]. split; [|exact Hk].
      destruct (run a prev s (fun _ _ => true)) eqn:E; [|reflexivity].
      apply IHa in E as [z [Hz _]]. exfalso. apply Hn. now exists z.
Qed.

Lemma lastOr_nil (prev : option N) : lastOr prev [] = prev.
Proof. reflexivity. Qed.

Lemma lastOr_app (prev : option N) (u1 u2 : jstring) :
  lastOr prev (u1 ++ u2) = lastOr (lastOr prev u1) u2.
Proof.
  unfold lastOr. rewrite rev_app_distr.
  destruct (rev u2); reflexivity.
Qed.

Lemma lastOr_cons (prev : option N) (c : N) (u : jstring) :
  lastOr prev (c :: u) = lastOr (Some c) u.
Proof. apply (lastOr_app prev [c] u). Qed.

Lemma lastOr_snoc (prev : option N) (u : jstring) (c : N) :
  lastOr prev (u ++ [c]) = Some c.
Proof. now rewrite lastOr_app. Qed.

(** On patterns without anchors a match is the reading of a word. *)
Lemma iter_lang (a : regex) :
  (forall prev s y, denote a (prev, s) y
      <-> exists u, lang a u /\ s = u ++ snd y /\ fst y = lastOr prev u) ->
  forall prev s y,
    iter (denote a) (prev, s) y
    <-> exists u, lang (Star a) u /\ s = u ++ snd y /\ fst y = lastOr prev u.
Proof.
  intros Ha prev s y. split.
  - intros Hit. remember (prev, s) as x eqn:Ex.
    revert prev s Ex. induction Hit as [x|x y' z HR Hlt Hit IH]; intros prev s ->.
    + exists []. split; [exists []; split; [reflexivity | constructor] | auto].
    + destruct y' as [py sy]. apply Ha in HR as [u [Hu [Hs Hp]]].
      simpl in *. subst s py.
      destruct (IH _ _ eq_refl) as [u' [[us [-> Hus]] [Hs' Hz]]].
      exists (u ++ concat us). split; [|split].
      * exists (u :: us). split; [reflexivity|].
        constructor; [split; [exact Hu|] | exact Hus].
        intros ->. simpl in Hlt. lia.
      * rewrite Hs'. now rewrite app_assoc.
      * now rewrite lastOr_app.
  - intros [u [[us [-> Hus]] [Hs Hp]]]. revert prev s Hs Hp.
    induction Hus as [|w us [Hw Hne] Hus IH]; intros prev s Hs Hp; simpl in *.
    + destruct y as [py sy]; simpl in *. subst. constructor.
    + apply iter_step with (y := (lastOr prev w, concat us ++ snd y)).
      * apply Ha. exists w. simpl. rewrite Hs, app_assoc. auto.
      * simpl. rewrite Hs, <- app_assoc, !length_app.
        destruct w; [congruence | simpl; lia].
      * apply IH; [reflexivity | now rewrite Hp, lastOr_app].
Qed.

Lemma denote_simple (r : regex) :
  simple r = true ->
  forall prev s y,
    denote r (prev, s) y
    <-> exists u, lang r u /\ s = u ++ snd y /\ fst y = lastOr prev u.
Proof.
  induction r as [|p|a IHa b IHb|a IHa b IHb|a IHa| | | |a IHa];
    simpl; intros Hs; try discriminate.
  - intros prev s [py sy]; simpl. split.
    + intros [= <- <-]. exists []. auto.
    + intros [u [-> [-> ->]]]. reflexivity.
  - intros prev s [py sy]; simpl. split.
    + intros [c [-> [Hp ->]]]. exists [c]. split; [exists c|]; auto.
    + intros [u [[c [-> Hp]] [-> ->]]]. exists c. auto.
  - apply andb_true_iff in Hs as [Sa Sb]. intros prev s y. split.
    + intros [[pz sz] [Ha Hb]].
      apply (IHa Sa) in Ha as [u1 [L1 [E1 P1]]].
      apply (IHb Sb) in Hb as [u2 [L2 [E2 P2]]]. simpl in *. subst.
      exists (u1 ++ u2). split; [exists u1, u2; auto|].
      split; [now rewrite app_assoc | now rewrite lastOr_app].
    + intros [u [[u1 [u2 [-> [L1 L2]]]] [-> Hp]]].
      exists (lastOr prev u1, u2 ++ snd y). split.
      * apply (IHa Sa). exists u1. simpl. rewrite app_assoc. auto.
      * apply (IHb Sb). exists u2. simpl. now rewrite Hp, lastOr_app.
  - apply andb_true_iff in Hs as [Sa Sb]. intros prev s y.
    rewrite (IHa Sa), (IHb Sb). split.
    + intros [[u [H1 H2]]|[u [H1 H2]]]; exists u; auto.
    + intros [u [[H1|H1] H2]]; [left|right]; exists u; auto.
  - intros prev s y. apply iter_lang. exact (IHa Hs).
Qed.

(** ** Searching *)

Lemma search_spec (r : regex) (s : jstring) : forall prev,
    search r prev s = true
    <-> exists pre post, s = pre ++ post
                         /\ exists y, denote r (lastOr prev pre, post) y.
Proof.
  induction s as [|c s IH]; intros prev; simpl; rewrite orb_true_iff.
  - split.
    + intros [H|H]; [|discriminate].
      apply run_denote in H as [y [Hy _]]. exists [], []. split; [reflexivity|].
      now exists y.
    + intros [pre [post [E [y Hy]]]]. left.
      symmetry in E. apply app_eq_nil in E as [-> ->].
      apply run_denote. now exists y.
  - rewrite IH. split.
    + intros [H|[pre [post [-> [y Hy]]]]].
      * apply run_denote in H as [y [Hy _]]. exists [], (c :: s).
        split; [reflexivity | now exists y].
      * exists (c :: pre), post. split; [reflexivity|].
        exists y. now rewrite lastOr_cons.
    + intros [pre [post [E [y Hy]]]]. destruct pre as [|c' pre]; simpl in E.
      * left. subst post. apply run_denote. now exists y.
      * right. injection E as <- ->. exists pre, post. split; [reflexivity|].
        exists y. now rewrite lastOr_cons in Hy.
Qed.

(** A pattern that starts with [^] is only tried at the start. *)
Lemma search_after_start (r : regex) (s : jstring) (c : N) :
  search (Seq Bol r) (Some c) s = false.
Proof.
  revert c; induction s as [|c' s IH]; intros c; simpl; [reflexivity|].
  apply IH.
Qed.

Lemma test_anchored (r : regex) (s : jstring) :
  test (Seq Bol r) s = run r None s (fun _ _ => true).
Proof.
  unfold test. destruct s as [|c s]; simpl.
  - now rewrite orb_false_r.
  - now rewrite search_after_start, orb_false_r.
Qed.

(** ** Host names *)

Lemma lang_star_cls (p : N -> bool) (u : jstring) :
  lang (Star (Cls p)) u <-> Forall (fun c => p c = true) u.
Proof.
  simpl. split.
  - intros [us [-> Hus]]. induction Hus as [|w us [[c [-> Hc]] _] _ IH]; simpl.
    + constructor.
    + now constructor.
  - intros H. induction H as [|c u Hc _ [us [-> Hus]]].
    + exists []. split; [reflexivity | constructor].
    + exists ([c] :: us). split; [reflexivity|].
      constructor; [|exact Hus]. split; [now exists c | discriminate].
Qed.

Lemma lang_at_least_two (p : N -> bool) (l : jstring) :
  lang (AtLeast2 (Cls p)) l
  <-> (2 <= List.length l)%nat /\ Forall (fun c => p c = true) l.
Proof.
  unfold AtLeast2. split.
  - intros [u1 [u2 [-> [[a [-> Ha]] [u3 [u4 [-> [[b [-> Hb]] Hs]]]]]]]].
    apply lang_star_cls in Hs. simpl. split; [lia|].
    repeat constructor; assumption.
  - intros [Hlen Hall]. destruct l as [|a [|b t]]; simpl in Hlen; try lia.
    inversion Hall as [|? ? Ha Hall']; subst.
    inversion Hall' as [|? ? Hb Ht]; subst.
    exists [a], (b :: t). split; [reflexivity|]. split; [now exists a|].
    exists [b], t. split; [reflexivity|]. split; [now exists b|].
    now apply lang_star_cls.
Qed.

Lemma lang_dot_label (g : jstring) :
  lang (Seq (chr 46) (AtLeast2 (Cls isAlpha))) g
  <-> exists l, g = 46 :: l /\ AlphaLabel l.
Proof.
  split.
  - intros [u1 [u2 [-> [[c [-> Hc]] H2]]]].
    apply N.eqb_eq in Hc as <-. apply lang_at_least_two in H2.
    now exists u2.
  - intros [l [-> Hl]]. exists [46], l. split; [reflexivity|].
    split; [exists 46; auto | now apply lang_at_least_two].
Qed.

Lemma lang_dot_labels (gs : jstring) :
  lang (Star (Seq (chr 46) (AtLeast2 (Cls isAlpha)))) gs
  <-> exists rest, Forall AlphaLabel rest /\ gs = concat (List.map (cons 46) rest).
Proof.
  split.
  - intros [us [-> Hus]].
    induction Hus as [|g us [Hg _] _ [rest [Hrest E]]].
    + exists []. split; [constructor | reflexivity].
    + apply lang_dot_label in Hg as [l [-> Hl]].
      exists (l :: rest). split; [now constructor|].
      simpl. now rewrite E.
  - intros [rest [Hrest ->]].
    induction Hrest as [|l rest Hl _ [us [E Hus]]].
    + exists []. split; [reflexivity | constructor].
    + exists ((46 :: l) :: us). split; [simpl; now rewrite E|].
      constructor; [|exact Hus].
      split; [apply lang_dot_label; now exists l | discriminate].
Qed.

Lemma lang_label_tail (v : jstring) :
  lang (Opt (Seq (Star (Cls isAlnumHyphen)) (Cls isAlnum))) v
  <-> v = [] \/ exists inner d, v = inner ++ [d]
                                /\ Forall (fun x => isAlnumHyphen x = true) inner
                                /\ isAlnum d = true.
Proof.
  unfold Opt. split.
  - intros [[w1 [w2 [-> [H1 [d [-> Hd]]]]]]|H]; [right | now left].
    apply lang_star_cls in H1. now exists w1, d.
  - intros [->|[inner [d [-> [Hin Hd]]]]]; [now right | left].
    exists inner, [d]. split; [reflexivity|].
    split; [now apply lang_star_cls | now exists d].
Qed.

(** The pattern of [extractDomain] accepts exactly the host names. *)
Lemma test_domainPattern (d : jstring) :
  test domainPattern d = true <-> Hostname d.
Proof.
  unfold domainPattern. cbn [seqs]. rewrite test_anchored, run_denote.
  set (body := Seq (Cls isAlnum)
                 (Seq (Opt (Seq (Star (Cls isAlnumHyphen)) (Cls isAlnum)))
                      (Plus (Seq (chr 46) (AtLeast2 (Cls isAlpha)))))).
  assert (Hbody : forall y,
             denote (Seq (Cls isAlnum)
                       (Seq (Opt (Seq (Star (Cls isAlnumHyphen)) (Cls isAlnum)))
                          (Seq (Plus (Seq (chr 46) (AtLeast2 (Cls isAlpha)))) Eol)))
                    (None, d) y
             <-> denote body (None, d) y /\ snd y = []).
  { intros y. split.
    - intros [z1 [H1 [z2 [H2 [z3 [H3 [He <-]]]]]]]. split; [|exact He].
      exists z1. split; [exact H1|]. exists z2. now split.
    - intros [[z1 [H1 [z2 [H2 H3]]]] He].
      exists z1. split; [exact H1|]. exists z2. split; [exact H2|].
      exists y. now split. }
  assert (Hlang : (exists y, denote body (None, d) y /\ snd y = []) <-> lang body d).
  { split.
    - intros [y [Hy He]]. apply (denote_simple body eq_refl) in Hy as [u [Hu [E _]]].
      rewrite He, app_nil_r in E. now subst.
    - intros Hu. exists (lastOr None d, []). split; [|reflexivity].
      apply (denote_simple body eq_refl). exists d. simpl.
      now rewrite app_nil_r. }
  transitivity (lang body d).
  { rewrite <- Hlang. split.
    - intros [y [Hy _]]. exists y. now apply Hbody.
    - intros [y Hy]. exists y. split; [now apply Hbody | reflexivity]. }
  unfold body, Hostname, Plus. split.
  - intros [u1 [u2 [-> [[c [-> Hc]] [v1 [v2 [-> [Hv1 Hv2]]]]]]]].
    apply lang_label_tail in Hv1.
    destruct Hv2 as [g [gs [-> [Hg Hgs]]]].
    apply lang_dot_label in Hg as [l [-> Hl]].
    apply lang_dot_labels in Hgs as [rest [Hrest ->]].
    exists (c :: v1), (l :: rest). split; [|split; [discriminate|split]].
    + exists c. split; [exact Hc|].
      destruct Hv1 as [->|[inner [e [-> [Hin He]]]]]; [now left | right].
      now exists inner, e.
    + now constructor.
    + reflexivity.
  - intros [first [rest [[c [Hc Hfirst]] [Hne [Hrest ->]]]]].
    destruct rest as [|l rest]; [congruence|].
    inversion Hrest as [|? ? Hl Hrest']; subst.
    assert (exists v1, first = c :: v1
                       /\ lang (Opt (Seq (Star (Cls isAlnumHyphen)) (Cls isAlnum))) v1)
      as [v1 [-> Hv1]].
    { destruct Hfirst as [->|[inner [e [-> [Hin He]]]]].
      - exists []. split; [reflexivity | apply lang_label_tail; now left].
      - exists (inner ++ [e]). split; [reflexivity|].
        apply lang_label_tail. right. now exists inner, e. }
    exists [c], (v1 ++ concat (List.map (cons 46) (l :: rest))).
    split; [reflexivity|]. split; [now exists c|].
    exists v1, (concat (List.map (cons 46) (l :: rest))).
    split; [reflexivity|]. split; [exact Hv1|].
    exists (46 :: l), (concat (List.map (cons 46) rest)).
    split; [reflexivity|].
    split; [apply lang_dot_label; now exists l|].
    apply lang_dot_labels. now exists rest.
Qed.

(** ** extractDomain *)

Lemma split_first (sep : N) (s : jstring) :
  nth 0 (split sep s) [] = beforeFirst sep s.
Proof.
  induction s as [|c s IH]; simpl; [reflexivity|].
  destruct (c =? sep); [reflexivity|].
  destruct (split sep s) as [|p ps]; simpl in *; now rewrite <- IH.
Qed.

Lemma split_not_empty (sep : N) (s : jstring) :
  (List.length (split sep s) =? 0)%nat = false.
Proof.
  destruct s as [|c s]; simpl; [reflexivity|].
  destruct (c =? sep); [reflexivity|].
  now destruct (split sep s).
Qed.

Lemma beforeFirst_absent (sep : N) (s : jstring) :
  ~ In sep s -> beforeFirst sep s = s.
Proof.
  induction s as [|c s IH]; simpl; intros H; [reflexivity|].
  destruct (N.eqb_spec c sep) as [->|_]; [exfalso; auto|].
  rewrite IH; auto.
Qed.

Lemma Hostname_not_empty (d : jstring) : Hostname d -> nonEmpty d = true.
Proof.
  intros [first [rest [[c [_ Hfirst]] [_ [_ ->]]]]].
  destruct Hfirst as [->|[inner [e [-> _]]]]; reflexivity.
Qed.

(** What [extractDomain] computes on a string. *)
Lemma extractDomain_string (s : jstring) :
  extractDomain (VString s)
  = Normal (if test domainPattern (candidate s) then Some (candidate s) else None).
Proof.
  destruct s as [|c s]; [reflexivity|].
  unfold extractDomain. cbn [truthy typeofString negb orb callSplit cbind].
  rewrite split_not_empty, split_first. fold (candidate (c :: s)).
  destruct (test domainPattern (candidate (c :: s))) eqn:E.
  - apply test_domainPattern, Hostname_not_empty in E. now rewrite E.
  - now rewrite andb_false_r.
Qed.

Lemma extractDomain_total (v : jsval) : exists r, extractDomain v = Normal r.
Proof.
  destruct v as [| |b|q|s| | |];
    try (unfold extractDomain; cbn [typeofString negb];
         rewrite orb_true_r; eexists; reflexivity).
  rewrite extractDomain_string. eexists; reflexivity.
Qed.

Lemma extractDomain_some (s d : jstring) :
  extractDomain (VString s) = Normal (Some d) <-> d = candidate s /\ Hostname d.
Proof.
  rewrite extractDomain_string.
  destruct (test domainPattern (candidate s)) eqn:E; split.
  - intros [= <-]. split; [reflexivity | now apply test_domainPattern].
  - intros [-> _]. reflexivity.
  - discriminate.
  - intros [-> H]. apply test_domainPattern in H. congruence.
Qed.

Lemma extractDomain_none (s : jstring) :
  extractDomain (VString s) = Normal None <-> ~ Hostname (candidate s).
Proof.
  rewrite extractDomain_string.
  destruct (test domainPattern (candidate s)) eqn:E; split.
  - discriminate.
  - intros H. exfalso. apply H. now apply test_domainPattern.
  - intros _ H. apply test_domainPattern in H. congruence.
  - reflexivity.
Qed.

(** A host name has a dot; no name inherited from [Object.prototype] has. *)
Lemma extractDomain_has_dot (v : jsval) (d : jstring) :
  extractDomain v = Normal (Some d) -> In 46 d.
Proof.
  intros H.
  destruct v as [| |b|q|s| | |];
    try (unfold extractDomain in H; cbn [typeofString negb] in H;
         rewrite orb_true_r in H; discriminate).
  apply extractDomain_some in H as [_ [first [rest [_ [Hne [_ ->]]]]]].
  destruct rest as [|l rest]; [congruence|].
  apply in_or_app. right. simpl. now left.
Qed.

(** C7 (as amended): on a string, [extractDomain] takes the trimmed text
    before the first [@] and returns it exactly when it is a host name in
    the sense of [Hostname]: a first label of letters and digits with
    hyphens inside only, followed by one or more labels of two ASCII
    letters or more, each after a dot; any other candidate gives null. *)
Theorem extractDomain_grammar (s : jstring) :
  (forall d, extractDomain (VString s) = Normal (Some d)
             <-> d = candidate s /\ Hostname d)
  /\ (extractDomain (VString s) = Normal None <-> ~ Hostname (candidate s)).
Proof.
  split; [intros d; apply extractDomain_some | apply extractDomain_none].
Qed.

(** The host of [SunTV.in@HD] and the refusal of [NotADomain]. *)
Lemma extractDomain_grammar_witness :
  extractDomain (VString (js "SunTV.in@HD")) = Normal (Some (js "SunTV.in"))
  /\ extractDomain (VString (js "NotADomain")) = Normal None.
Proof.
  split.
  - apply (proj1 (extractDomain_grammar (js "SunTV.in@HD")) (js "SunTV.in")).
    split; [reflexivity|]. apply test_domainPattern. vm_compute. reflexivity.
  - apply (proj2 (extractDomain_grammar (js "NotADomain"))).
    intros H. apply test_domainPattern in H. vm_compute in H. discriminate.
Defined.

(** C7, as the specification words the grammar: [tv9.news24.com] is made
    of labels of letters and digits and ends with a label of three
    letters, and yet it is refused. *)
Lemma extractDomain_refuses_digit_label :
  specHostname (js "tv9.news24.com") = true
  /\ candidate (js "tv9.news24.com@HD") = js "tv9.news24.com"
  /\ extractDomain (VString (js "tv9.news24.com@HD")) = Normal None.
Proof. vm_compute. auto. Qed.

(** C6 (as amended): [extractDomain] returns on every value; a value that
    is not a string gives null; a string whose candidate is not a host
    name gives null; a string without [@] that is itself, once trimmed, a
    host name is returned trimmed; and the two examples of the
    specification hold. *)
Theorem extractDomain_never_throws :
  (forall v, exists r, extractDomain v = Normal r)
  /\ (forall v, typeofString v = false -> extractDomain v = Normal None)
  /\ (forall s, ~ Hostname (candidate s) -> extractDomain (VString s) = Normal None)
  /\ (forall s, ~ In 64 s -> Hostname (trim s) ->
                extractDomain (VString s) = Normal (Some (trim s)))
  /\ extractDomain (VString (js "SunTV.in@HD")) = Normal (Some (js "SunTV.in"))
  /\ extractDomain (VString (js "NotADomain")) = Normal None.
Proof.
  split; [exact extractDomain_total|].
  split.
  { intros v Hv. destruct v; try discriminate;
      unfold extractDomain; cbn [typeofString negb]; now rewrite orb_true_r. }
  split; [intros s; apply extractDomain_none|].
  split; [|split; vm_compute; reflexivity].
  intros s Hat Hhost. apply extractDomain_some.
  unfold candidate. rewrite beforeFirst_absent by exact Hat. auto.
Qed.

(** A value that is not a string, a string that is no host name, and a
    host name with white space around it and no [@]. *)
Lemma extractDomain_never_throws_witness :
  extractDomain (VNumber 7) = Normal None
  /\ extractDomain (VString (js "not a domain@HD")) = Normal None
  /\ extractDomain (VString (js " SunTV.in ")) = Normal (Some (js "SunTV.in")).
Proof.
  destruct extractDomain_never_throws as [_ [Hother [Hbad [Hgood _]]]].
  split; [apply Hother; reflexivity|]. split.
  - apply Hbad. intros H. apply test_domainPattern in H.
    vm_compute in H. discriminate.
  - apply (Hgood (js " SunTV.in ")).
    + vm_compute. intuition discriminate.
    + apply test_domainPattern. vm_compute. reflexivity.
Defined.

(** C6, as stated: a string with no [@] is not always refused. *)
Lemma extractDomain_without_at_sign :
  forallb (fun c => negb (c =? 64)) (js "SunTV.in") = true
  /\ extractDomain (VString (js "SunTV.in")) = Normal (Some (js "SunTV.in")).
Proof. vm_compute. auto. Qed.

(** ** Whole words *)

Lemma litI_simple (w : jstring) : simple (litI w) = true.
Proof.
  unfold litI. induction w as [|x [|x' w] IH]; try reflexivity.
  change (simple (Seq (chrI x) (seqs (List.map chrI (x' :: w)))) = true).
  simpl simple at 1. exact IH.
Qed.

Lemma lang_litI (w : jstring) : forall u,
    lang (litI w) u <-> sameIgnoringCase u w.
Proof.
  unfold litI, sameIgnoringCase.
  induction w as [|x [|x' w] IH]; intros u.
  - simpl. split; [intros ->; reflexivity|].
    destruct u; [reflexivity | discriminate].
  - simpl. split.
    + intros [c [-> Hc]]. apply N.eqb_eq in Hc. simpl. now rewrite Hc.
    + destruct u as [|c [|c' u]]; try discriminate.
      intros [= Hc]. exists c. split; [reflexivity | now apply N.eqb_eq].
  - change (lang (Seq (chrI x) (seqs (List.map chrI (x' :: w)))) u
            <-> List.map asciiLower u = asciiLower x :: List.map asciiLower (x' :: w)).
    split.
    + intros [u1 [u2 [-> [[c [-> Hc]] H2]]]].
      apply N.eqb_eq in Hc. apply IH in H2. simpl. simpl in H2.
      now rewrite Hc, H2.
    + destruct u as [|c u]; [discriminate|]. intros [= Hc Hu].
      exists [c], u. split; [reflexivity|].
      split; [exists c; split; [reflexivity | now apply N.eqb_eq]|].
      apply IH. exact Hu.
Qed.

Lemma test_wholeWord (w : string) (s : jstring) :
  test (wholeWord w) s = true <-> OccursAsWord (js w) s.
Proof.
  unfold test, wholeWord, L, OccursAsWord. cbn [seqs]. rewrite search_spec.
  split.
  - intros [pre [post [-> [y [z [[Hb <-] [z' [Hw [Hb' _]]]]]]]]].
    apply (denote_simple _ (litI_simple (js w))) in Hw as [u [Hu [E Hp]]].
    simpl in Hb. apply lang_litI in Hu.
    exists pre, u, (snd z'). rewrite <- E, <- Hp. auto.
  - intros [pre [u [post [-> [Hu [Hb Hb']]]]]].
    exists pre, (u ++ post). split; [reflexivity|].
    exists (lastOr (lastOr None pre) u, post).
    exists (lastOr None pre, u ++ post). split; [split; auto|].
    exists (lastOr (lastOr None pre) u, post). split; [|split; auto].
    apply (denote_simple _ (litI_simple (js w))). exists u.
    split; [now apply lang_litI | auto].
Qed.

Lemma search_Alt (a b : regex) (s : jstring) : forall prev,
    search (Alt a b) prev s = search a prev s || search b prev s.
Proof.
  induction s as [|c s IH]; intros prev; simpl.
  - now rewrite !orb_false_r.
  - rewrite IH.
    destruct (run a prev (c :: s) _), (run b prev (c :: s) _),
      (search a (Some c) s), (search b (Some c) s); reflexivity.
Qed.

Lemma search_Never (s : jstring) : forall prev, search Never prev s = false.
Proof.
  induction s as [|c s IH]; intros prev; simpl; [reflexivity | apply IH].
Qed.

Lemma test_alts (rs : list regex) (s : jstring) :
  test (alts rs) s = existsb (fun r => test r s) rs.
Proof.
  unfold test. induction rs as [|r [|r' rs] IH].
  - apply search_Never.
  - simpl. now rewrite orb_false_r.
  - change (search (Alt r (alts (r' :: rs))) None s
            = search r None s || existsb (fun r => search r None s) (r' :: rs)).
    now rewrite search_Alt, IH.
Qed.

Lemma test_mentions (words : list string) (s : jstring) :
  test (alts (List.map wholeWord words)) s = true <-> Mentions words s.
Proof.
  rewrite test_alts, existsb_exists. unfold Mentions. split.
  - intros [r [Hin Hr]]. apply in_map_iff in Hin as [w [<- Hw]].
    exists w. split; [exact Hw | now apply test_wholeWord].
  - intros [w [Hw Ho]]. exists (wholeWord w).
    split; [now apply in_map | now apply test_wholeWord].
Qed.

(** [explicitPatterns] is the table of words, each entry made a pattern. *)
Lemma explicitPatterns_words :
  explicitPatterns
  = List.map (fun entry => (fst entry, alts (List.map wholeWord (snd entry))))
             explicitWords.
Proof. reflexivity. Qed.

Lemma firstMatch_words (table : list (jstring * list string)) (s : jstring) :
  forall before lang words after,
    table = before ++ (lang, words) :: after ->
    Mentions words s ->
    Forall (fun entry => ~ Mentions (snd entry) s) before ->
    firstMatch (List.map (fun entry => (fst entry, alts (List.map wholeWord (snd entry))))
                         table) s
    = Some lang.
Proof.
  intros before lang words after -> Hm Hbefore.
  induction Hbefore as [|[l ws] before Hno _ IH]; simpl.
  - apply test_mentions in Hm. now rewrite Hm.
  - destruct (test (alts (List.map wholeWord ws)) s) eqn:E; [|exact IH].
    apply test_mentions in E. contradiction.
Qed.

Lemma firstMatch_no_words (table : list (jstring * list string)) (s : jstring) :
  Forall (fun entry => ~ Mentions (snd entry) s) table ->
  firstMatch (List.map (fun entry => (fst entry, alts (List.map wholeWord (snd entry))))
                       table) s
  = None.
Proof.
  induction 1 as [|[l ws] table Hno _ IH]; simpl; [reflexivity|].
  destruct (test (alts (List.map wholeWord ws)) s) eqn:E; [|exact IH].
  apply test_mentions in E. contradiction.
Qed.

Lemma detectExplicit_first (s lang : jstring) :
  FirstMention (toLowerCase s) lang ->
  detectExplicitLanguageInName (VString s) = Normal (Some lang).
Proof.
  intros [before [words [after [E [Hm Hb]]]]].
  unfold detectExplicitLanguageInName. cbn [callToLowerCase cbind].
  rewrite explicitPatterns_words.
  now rewrite (firstMatch_words _ _ _ _ _ _ E Hm Hb).
Qed.

Lemma detectExplicit_none (s : jstring) :
  Forall (fun entry => ~ Mentions (snd entry) (toLowerCase s)) explicitWords ->
  detectExplicitLanguageInName (VString s) = Normal None.
Proof.
  intros H. unfold detectExplicitLanguageInName. cbn [callToLowerCase cbind].
  rewrite explicitPatterns_words. now rewrite firstMatch_no_words.
Qed.

Lemma firstMatch_key (table : list (jstring * regex)) (s key : jstring) :
  firstMatch table s = Some key -> In key (List.map fst table).
Proof.
  induction table as [|[k r] table IH]; simpl; [discriminate|].
  destruct (test r s); [intros [= <-]; now left | right; auto].
Qed.

(** ** The full-HTML resolver *)

(** C1: whenever the metadata analyzer's aggregated language is [en] and
    the body-text analyzer yields a language other than [en] with
    confidence at least 0.5, the resolver in default mode returns the body
    language, whatever signals the two analyzers produced; the analyzers
    are arbitrary, so a body result [{language: "ta", confidence: 0.6}]
    gives ["ta"]. *)
Theorem conflict_override
        (Html : Type) (metadataAnalyzer : Html -> MetadataResult)
        (bodyTextAnalyzer : Html -> TextResult) (html : Html) (lang : jstring) :
  metaLanguage (metadataAnalyzer html) = Some (js "en") ->
  language (bodyTextAnalyzer html) = Some lang ->
  lang <> [] ->
  lang <> js "en" ->
  (0.5 <= confidence (bodyTextAnalyzer html))%Q ->
  detectLanguageFromHTMLWith metadataAnalyzer bodyTextAnalyzer html defaultOptions
  = Some lang.
Proof.
  intros Hmeta Hbody Hne Hen Hconf.
  unfold detectLanguageFromHTMLWith, bodyOverride. simpl.
  rewrite Hmeta, Hbody. destruct lang as [|c lang]; [congruence|].
  rewrite jstring_eqb_refl, (jstring_eqb_neq _ _ Hen).
  apply Qle_bool_iff in Hconf. now rewrite Hconf.
Qed.

(** An English template (four English locale tags, which alone would win
    the aggregation 16 to 15) around a body reported as
    [{language: "ta", confidence: 0.6}]. *)
Lemma conflict_override_witness :
  aggregateLanguageSignals
    (combinedSignals (fun _ : unit => detectLanguageFromMetadata englishTemplatePage)
                     (fun _ => bodyTa) tt defaultOptions)
  = Some (js "en")
  /\ detectLanguageFromHTMLWith
       (fun _ : unit => detectLanguageFromMetadata englishTemplatePage)
       (fun _ => bodyTa) tt defaultOptions
     = Some (js "ta").
Proof.
  split; [vm_compute; reflexivity|].
  apply (conflict_override unit
           (fun _ => detectLanguageFromMetadata englishTemplatePage)
           (fun _ => bodyTa) tt (js "ta")).
  - vm_compute. reflexivity.
  - reflexivity.
  - discriminate.
  - discriminate.
  - vm_compute. discriminate.
Defined.

(** C4: on a page of English prose the body analyzer answers [english],
    which is not the string ['en'] the weight is chosen by, and the
    body-text signal is pushed with weight 15. *)
Lemma english_body_weight :
  detectLanguageFromBodyText francEnglish englishPage
  = mkTextResult (Some (js "english")) 0.6 (js "franc-english")
  /\ combinedSignals detectLanguageFromMetadata
                     (detectLanguageFromBodyText francEnglish)
                     englishPage defaultOptions
     = [mkSignal (js "body-text") (VString (js "english")) 15].
Proof. split; vm_compute; reflexivity. Qed.

(** ** Aggregation *)

(** C5: a signal whose value is the name of a property every object
    literal inherits is not discarded: the lookup [langMap[normalized]]
    finds the function [Object], and its string form becomes the winning
    "code". *)
Lemma aggregate_inherited_name :
  normalizeLanguageCode (VString (js "constructor")) = VObjectCtor
  /\ aggregateLanguageSignals
       [mkSignal (js "html-lang") (VString (js "constructor")) 10]
     = Some (js "function Object() { [native code] }").
Proof. split; vm_compute; reflexivity. Qed.

(** ** Normalization *)

Lemma lower_letter_lowerUnit (c : N) : isLowerAscii c = true -> lowerUnit c = [c].
Proof. intros H. class_facts. Qed.

Lemma lower_letter_not_space (c : N) : isLowerAscii c = true -> isWhiteSpace c = false.
Proof. intros H. class_facts. Qed.

Lemma test_isoCode_two (a b : N) :
  test isoCodePattern [a; b] = isLowerAscii a && isLowerAscii b.
Proof.
  unfold isoCodePattern, Exactly2. cbn [seqs]. rewrite test_anchored. simpl.
  now rewrite andb_true_r.
Qed.

Lemma test_isoCode_longer (a b c : N) (rest : jstring) :
  test isoCodePattern (a :: b :: c :: rest) = false.
Proof.
  unfold isoCodePattern, Exactly2. cbn [seqs]. rewrite test_anchored. simpl.
  now rewrite !andb_false_r.
Qed.

Lemma test_locale (a b c : N) (rest : jstring) :
  test localePattern (a :: b :: c :: rest)
  = isLowerAscii a && isLowerAscii b && hyphenOrUnderscore c.
Proof.
  unfold localePattern, Exactly2. cbn [seqs]. rewrite test_anchored. simpl.
  now rewrite andb_true_r, andb_assoc.
Qed.

(** C10: [normalizeLanguageCode] returns any two lower-case ASCII letters
    as they are, and the first two letters of any value whose lower-cased,
    trimmed form starts with two such letters and [-] or [_]; no table of
    supported languages is consulted, so that the page [<html lang="fr">]
    makes the aggregation and [detectLanguageFromHTML] answer [fr], which
    is none of the supported codes. *)
Theorem normalize_accepts_any_two_letters :
  (forall a b, isLowerAscii a = true -> isLowerAscii b = true ->
               normalizeLanguageCode (VString [a; b]) = VString [a; b])
  /\ (forall s a b c rest,
         trim (toLowerCase s) = a :: b :: c :: rest ->
         isLowerAscii a = true -> isLowerAscii b = true ->
         hyphenOrUnderscore c = true ->
         normalizeLanguageCode (VString s) = VString [a; b])
  /\ aggregateLanguageSignals (signals (detectLanguageFromMetadata frenchPage))
     = Some (js "fr")
  /\ (forall franc, detectLanguageFromHTML franc frenchPage defaultOptions
                    = Some (js "fr"))
  /\ ~ In (js "fr") supportedCodes.
Proof.
  split; [|split; [|split; [|split]]].
  - intros a b Ha Hb. unfold normalizeLanguageCode, toLowerCase.
    cbn [flat_map]. rewrite (lower_letter_lowerUnit a Ha), (lower_letter_lowerUnit b Hb).
    cbn [app].
    assert (trim [a; b] = [a; b]) as ->.
    { unfold trim, trimStart, trimEnd. simpl.
      rewrite (lower_letter_not_space a Ha). simpl.
      now rewrite (lower_letter_not_space b Hb). }
    now rewrite test_isoCode_two, Ha, Hb.
  - intros s a b c rest E Ha Hb Hc.
    destruct s as [|x s]; [discriminate|].
    unfold normalizeLanguageCode. rewrite E.
    now rewrite test_isoCode_longer, test_locale, Ha, Hb, Hc.
  - vm_compute. reflexivity.
  - intros franc. vm_compute. reflexivity.
  - vm_compute. intuition discriminate.
Qed.

(** The first two parts at [fr] and [ta-IN]. *)
Lemma normalize_accepts_any_two_letters_witness :
  normalizeLanguageCode (VString (js "fr")) = VString (js "fr")
  /\ normalizeLanguageCode (VString (js "ta-IN")) = VString (js "ta").
Proof.
  split.
  - apply (proj1 normalize_accepts_any_two_letters); reflexivity.
  - apply (proj1 (proj2 normalize_accepts_any_two_letters)
             (js "ta-IN") 116 97 45 (js "in")); reflexivity.
Defined.

(** ** The orchestrator *)

Lemma set_cache (c : LanguageCache) (domain lang src : jstring) (t : N) :
  cache (set c domain lang src t) = <[domain := mkCacheEntry lang src t]> (cache c).
Proof.
  unfold set. cbn [pendingWrites].
  destruct (cacheSaveInterval <=? S (pendingWrites c))%nat; reflexivity.
Qed.

Lemma no_words_of_firstMatch (table : list (jstring * list string)) (s : jstring) :
  firstMatch (List.map (fun entry => (fst entry, alts (List.map wholeWord (snd entry))))
                       table) s
  = None ->
  Forall (fun entry => ~ Mentions (snd entry) s) table.
Proof.
  induction table as [|[l ws] table IH]; simpl; intros H; [constructor|].
  destruct (test (alts (List.map wholeWord ws)) s) eqn:E; [discriminate|].
  constructor; [|now apply IH].
  simpl. intros Hm. apply test_mentions in Hm. congruence.
Qed.

Section OrchestratorFacts.

Variable franc : jstring -> jstring.
Variable network : nat -> jstring -> Response.

Lemma detectLanguage_explicit (nm tv : jsval) (w : World)
      (domain : option jstring) (lang : jstring) :
  extractDomain tv = Normal domain ->
  detectExplicitLanguageInName nm = Normal (Some lang) ->
  detectLanguage franc network (mkChannel nm tv) w
  = (Normal (mkDetection lang (js "name-explicit")),
     match domain with
     | Some d => mkWorld (set (languageCache w) d lang (js "name-explicit") (now w))
                         (now w) (requests w)
     | None => w
     end).
Proof.
  intros Hd He. unfold detectLanguage, bind, lift. cbn [name tvgId].
  rewrite Hd, He. destruct domain; reflexivity.
Qed.

Lemma detectLanguage_cached (nm tv : jsval) (w : World)
      (d : jstring) (entry : CacheEntry) :
  extractDomain tv = Normal (Some d) ->
  detectExplicitLanguageInName nm = Normal None ->
  cache (languageCache w) !! d = Some entry ->
  detectLanguage franc network (mkChannel nm tv) w
  = (Normal (mkDetection (entryLanguage entry) (js "cached-" ++ entrySource entry)), w).
Proof.
  intros Hd He Hc. unfold detectLanguage, bind, lift. cbn [name tvgId].
  rewrite Hd, He. unfold cacheHas, cacheGet, has, get. cbn beta iota.
  rewrite Hc. cbn beta iota. rewrite Hc. reflexivity.
Qed.

(** C2: when the lower-cased name mentions a language of the table as a
    whole word, [detectLanguage] answers the first such language with
    source [name-explicit], whatever the cache holds and without any
    request; when a domain was extracted, its cache entry is overwritten
    with that language and source [name-explicit], and otherwise the
    world is left as it was. *)
Theorem explicit_name_precedence (s : jstring) (tv : jsval) (w : World) (lang : jstring) :
  FirstMention (toLowerCase s) lang ->
  exists w',
    detectLanguage franc network (mkChannel (VString s) tv) w
    = (Normal (mkDetection lang (js "name-explicit")), w')
    /\ requests w' = requests w
    /\ match extractDomain tv with
       | Normal (Some d) =>
           cache (languageCache w') !! d
           = Some (mkCacheEntry lang (js "name-explicit") (now w))
           /\ forall d', d' <> d ->
                         cache (languageCache w') !! d' = cache (languageCache w) !! d'
       | _ => w' = w
       end.
Proof.
  intros Hm. apply detectExplicit_first in Hm.
  destruct (extractDomain_total tv) as [domain Hd].
  eexists. split; [apply (detectLanguage_explicit _ _ _ _ _ Hd Hm)|].
  rewrite Hd. destruct domain as [d|]; cbn [requests languageCache].
  - split; [reflexivity|]. rewrite set_cache. split.
    + apply lookup_insert_eq.
    + intros d' Hne. now apply lookup_insert_ne.
  - split; [destruct w|]; reflexivity.
Qed.

(** C3 (as amended): when the extracted domain has a cache entry,
    [detectLanguage] makes no request; and when the lower-cased name
    mentions no language of the table, it returns the stored language with
    source [cached-] followed by the stored source, and changes nothing. *)
Theorem cache_hit (s : jstring) (tv : jsval) (w : World) (d : jstring) (entry : CacheEntry) :
  extractDomain tv = Normal (Some d) ->
  cache (languageCache w) !! d = Some entry ->
  requests (snd (detectLanguage franc network (mkChannel (VString s) tv) w))
  = requests w
  /\ (Forall (fun e => ~ Mentions (snd e) (toLowerCase s)) explicitWords ->
      detectLanguage franc network (mkChannel (VString s) tv) w
      = (Normal (mkDetection (entryLanguage entry)
                             (js "cached-" ++ entrySource entry)), w)).
Proof.
  intros Hd Hc. split.
  - destruct (detectExplicitLanguageInName (VString s)) as [[lang|]|e] eqn:He.
    + now rewrite (detectLanguage_explicit _ _ _ _ _ Hd He).
    + now rewrite (detectLanguage_cached _ _ _ _ _ Hd He Hc).
    + discriminate.
  - intros Hno. apply detectExplicit_none in Hno.
    apply (detectLanguage_cached _ _ _ _ _ Hd Hno Hc).
Qed.

End OrchestratorFacts.

(** The channel "XYZ Tamil News" against a cache that says [hindi]. *)
Lemma explicit_name_precedence_witness :
  exists w',
    detectLanguage francUndetermined offline xyzTamilNews staleWorld
    = (Normal (mkDetection (js "tamil") (js "name-explicit")), w')
    /\ requests w' = []
    /\ cache (languageCache w') !! js "xyz.in"
       = Some (mkCacheEntry (js "tamil") (js "name-explicit") 1000).
Proof.
  assert (FirstMention (toLowerCase (js "XYZ Tamil News")) (js "tamil")) as Hm.
  { exists [], ["tamil"; "tamizh"], (tl explicitWords).
    split; [reflexivity|]. split; [|constructor].
    exists "tamil". split; [now left|].
    exists (js "xyz "), (js "tamil"), (js " news").
    repeat split; reflexivity. }
  destruct (explicit_name_precedence francUndetermined offline
              (js "XYZ Tamil News") (VString (js "xyz.in@HD")) staleWorld
              (js "tamil") Hm) as [w' [Hrun [Hreq Hcache]]].
  exists w'. split; [exact Hrun|]. split; [exact Hreq|].
  change (extractDomain (VString (js "xyz.in@HD")))
    with (Normal (Some (js "xyz.in"))) in Hcache.
  exact (proj1 Hcache).
Defined.

(** C3, as stated: the domain of "XYZ Tamil News" has a cache entry, and
    the answer is not the cached one. *)
Lemma cached_entry_overridden :
  extractDomain (tvgId xyzTamilNews) = Normal (Some (js "xyz.in"))
  /\ cache (languageCache staleWorld) !! js "xyz.in"
     = Some (mkCacheEntry (js "hindi") (js "web") 5)
  /\ fst (detectLanguage francUndetermined offline xyzTamilNews staleWorld)
     = Normal (mkDetection (js "tamil") (js "name-explicit")).
Proof. vm_compute. auto. Qed.

(** The channel "XYZ News" against the same cache. *)
Lemma cache_hit_witness :
  requests (snd (detectLanguage francUndetermined offline xyzNews staleWorld)) = []
  /\ detectLanguage francUndetermined offline xyzNews staleWorld
     = (Normal (mkDetection (js "hindi") (js "cached-web")), staleWorld).
Proof.
  assert (Hd : extractDomain (VString (js "xyz.in@HD")) = Normal (Some (js "xyz.in")))
    by (vm_compute; reflexivity).
  assert (Hc : cache (languageCache staleWorld) !! js "xyz.in"
               = Some (mkCacheEntry (js "hindi") (js "web") 5))
    by (vm_compute; reflexivity).
  destruct (cache_hit francUndetermined offline (js "XYZ News")
              (VString (js "xyz.in@HD")) staleWorld (js "xyz.in") _ Hd Hc)
    as [Hreq Hrun].
  split; [exact Hreq|]. apply Hrun.
  apply no_words_of_firstMatch. vm_compute. reflexivity.
Defined.

(** ** Names and codes *)

Lemma memberOf_In (x : jstring) (l : list jstring) :
  memberOf x l = true <-> In x l.
Proof.
  unfold memberOf. rewrite existsb_exists. split.
  - intros [y [Hy E]]. apply jstring_eqb_eq in E. now subst.
  - intros H. exists x. split; [exact H | apply jstring_eqb_refl].
Qed.

Lemma all_members (small big : list jstring) :
  forallb (fun x => memberOf x big) small = true ->
  forall x, In x small -> In x big.
Proof.
  intros H x Hx. rewrite forallb_forall in H. now apply memberOf_In, H.
Qed.

Lemma assoc_value {A : Type} (key : jstring) (table : list (jstring * A)) (v : A) :
  assoc key table = Some v -> In v (List.map snd table).
Proof.
  induction table as [|[k x] table IH]; simpl; [discriminate|].
  destruct (jstring_eqb k key); [intros [= <-]; now left | right; auto].
Qed.

Lemma name_not_code (l : jstring) : In l languageNames -> isTwoLetterCode l = false.
Proof.
  intros H.
  assert (forallb (fun x => negb (isTwoLetterCode x)) languageNames = true) as Hall
      by (vm_compute; reflexivity).
  rewrite forallb_forall in Hall. apply Hall in H. now apply negb_true_iff.
Qed.

Lemma scriptLanguage_name (script : option jstring) (l : jstring) :
  scriptLanguage script = Some l -> In l languageNames.
Proof.
  destruct script as [k|]; [|discriminate]. unfold scriptLanguage. intros H.
  apply assoc_value in H. revert l H. apply all_members. vm_compute. reflexivity.
Qed.

Lemma franc_name (detected l : jstring) :
  assoc detected FRANC_TO_LANGUAGE_NAME = Some (Some l) -> In l languageNames.
Proof.
  intros H. apply assoc_value in H.
  assert (forallb (fun o => match o with
                            | Some x => memberOf x languageNames
                            | None => true
                            end) (List.map snd FRANC_TO_LANGUAGE_NAME) = true) as Hall
      by (vm_compute; reflexivity).
  rewrite forallb_forall in Hall. apply Hall in H. now apply memberOf_In.
Qed.

Lemma mention_name (s l : jstring) :
  firstMatch languageMentions s = Some l -> In l languageNames.
Proof.
  intros H. apply firstMatch_key in H. revert l H.
  apply all_members. vm_compute. reflexivity.
Qed.

Lemma explicit_name (s l : jstring) :
  firstMatch explicitPatterns s = Some l -> In l languageNames.
Proof.
  intros H. apply firstMatch_key in H. revert l H.
  apply all_members. vm_compute. reflexivity.
Qed.

Lemma pattern_name (s l : jstring) :
  firstMatch LANGUAGE_PATTERNS s = Some l -> In l languageNames.
Proof.
  intros H. apply firstMatch_key in H. revert l H.
  apply all_members. vm_compute. reflexivity.
Qed.

(** The three steps of [analyzeTextLanguage], one by one. *)
Lemma scriptDetection_result (maxScript : option jstring * nat) (scriptRatio : Q)
      (r : TextResult) :
  scriptDetection maxScript scriptRatio = Some r ->
  (exists l, language r = Some l /\ In l languageNames)
  /\ confidence r = Qmin 0.95 (scriptRatio * 10)
  /\ method r = js "script-detection".
Proof.
  unfold scriptDetection.
  destruct ((50 <? snd maxScript)%nat && Qlt_bool 0.05 scriptRatio); [|discriminate].
  destruct (scriptLanguage (fst maxScript)) as [lang|] eqn:E; [|discriminate].
  destruct (negb (jstring_eqb lang (js "english"))); [|discriminate].
  intros [= <-]. split; [|split; reflexivity].
  exists lang. split; [reflexivity | now apply (scriptLanguage_name _ _ E)].
Qed.

Lemma scriptFallback_result (maxScript : option jstring * nat) (r : TextResult) :
  scriptFallback maxScript = Some r ->
  (exists l, language r = Some l /\ In l languageNames)
  /\ confidence r = 0.4%Q
  /\ method r = js "script-fallback".
Proof.
  unfold scriptFallback.
  destruct (20 <? snd maxScript)%nat; [|discriminate].
  destruct (scriptLanguage (fst maxScript)) as [lang|] eqn:E; [|discriminate].
  intros [= <-]. split; [|split; reflexivity].
  exists lang. split; [reflexivity | now apply (scriptLanguage_name _ _ E)].
Qed.

Section TextFacts.

Variable franc : jstring -> jstring.

Lemma statisticalDetection_result (cleanText : jstring)
      (maxScript : option jstring * nat) (scriptRatio : Q) (r : TextResult) :
  statisticalDetection franc cleanText maxScript scriptRatio = Some r ->
  (exists l, language r = Some l /\ In l languageNames)
  /\ (confidence r = 0.7%Q /\ method r = js "franc-statistical"
      \/ confidence r = 0.6%Q /\ method r = js "franc-english").
Proof.
  unfold statisticalDetection.
  destruct (100 <=? List.length cleanText)%nat; [|discriminate].
  cbv zeta.
  destruct (assoc (franc cleanText) FRANC_TO_LANGUAGE_NAME) as [[fl|]|] eqn:F;
    try discriminate.
  destruct (negb (jstring_eqb fl (js "english"))).
  - intros [= <-]. split; [|left; split; reflexivity].
    exists fl. split; [reflexivity | now apply (franc_name _ _ F)].
  - destruct (Qlt_bool 0.3 scriptRatio && _); [|discriminate].
    intros [= <-]. split; [|right; split; reflexivity].
    exists (js "english"). split; [reflexivity | vm_compute; tauto].
Qed.

(** Where a result of [analyzeTextLanguage] comes from. *)
Lemma analyzeTextLanguage_cases (text : jstring) :
  let r := analyzeTextLanguage franc text in
  let cleanText := trim (collapseSpaces false text) in
  let maxScript := maxScriptOf (scriptCounts (substring0 5000 cleanText)) in
  r = mkTextResult None 0 (js "insufficient-text")
  \/ scriptDetection maxScript (winningShare text) = Some r
  \/ statisticalDetection franc cleanText maxScript (winningShare text) = Some r
  \/ scriptFallback maxScript = Some r
  \/ r = mkTextResult None 0 (js "undetermined").
Proof.
  cbv zeta. unfold analyzeTextLanguage, winningShare.
  destruct (List.length (trim (collapseSpaces false text)) <? 50)%nat;
    [now left|].
  cbv zeta. right.
  set (cleanText := trim (collapseSpaces false text)).
  set (maxScript := maxScriptOf (scriptCounts (substring0 5000 cleanText))).
  set (scriptRatio := ratio _ _).
  destruct (scriptDetection maxScript scriptRatio) as [r1|]; [now left|].
  right.
  destruct (statisticalDetection franc cleanText maxScript scriptRatio) as [r2|];
    [now left|].
  right.
  destruct (scriptFallback maxScript) as [r3|]; [now left | now right].
Qed.

(** Every language the text analyzer answers is a full name. *)
Lemma analyzeTextLanguage_name (text l : jstring) :
  language (analyzeTextLanguage franc text) = Some l -> In l languageNames.
Proof.
  destruct (analyzeTextLanguage_cases text) as [H|[H|[H|[H|H]]]].
  - rewrite H. discriminate.
  - apply scriptDetection_result in H as [[l' [E Hl]] _]. congruence.
  - apply statisticalDetection_result in H as [[l' [E Hl]] _]. congruence.
  - apply scriptFallback_result in H as [[l' [E Hl]] _]. congruence.
  - rewrite H. discriminate.
Qed.

Lemma bodyText_name (html : Page) (l : jstring) :
  language (detectLanguageFromBodyText franc html) = Some l -> In l languageNames.
Proof.
  unfold detectLanguageFromBodyText. cbv zeta.
  destruct (detectLanguageFromDescription (VString (visibleText html)))
    as [hint|] eqn:E.
  - intros [= <-]. unfold detectLanguageFromDescription in E.
    destruct (visibleText html); [discriminate|].
    now apply (mention_name _ _ E).
  - apply analyzeTextLanguage_name.
Qed.

End TextFacts.

Section ResolverFacts.

Variable franc : jstring -> jstring.

(** The body analyzer never answers the code [en], so the weight 8 of
    step 2 is out of reach. *)
Lemma bodyText_never_en (html : Page) :
  language (detectLanguageFromBodyText franc html) <> Some (js "en").
Proof.
  intros H. apply bodyText_name, name_not_code in H. vm_compute in H. discriminate.
Qed.

Lemma body_weight_fifteen (html : Page) (lang : jstring) :
  language (detectLanguageFromBodyText franc html) = Some lang ->
  combinedSignals detectLanguageFromMetadata (detectLanguageFromBodyText franc)
                  html defaultOptions
  = List.map (fun signal => mkSignal (source signal) (value signal)
                                      (weight signal * 0.5))
             (signals (detectLanguageFromMetadata html))
    ++ [mkSignal (js "body-text") (VString lang) 15].
Proof.
  intros H. unfold combinedSignals. cbn [metadataOnly defaultOptions negb].
  rewrite H.
  assert (In lang languageNames) as Hname by apply (bodyText_name franc html), H.
  assert (isTwoLetterCode lang = false) as Hc by now apply name_not_code.
  destruct lang as [|c lang]; [vm_compute in Hname; intuition discriminate|].
  destruct (jstring_eqb (c :: lang) (js "en")) eqn:E; [|reflexivity].
  apply jstring_eqb_eq in E. rewrite E in Hc. vm_compute in Hc. discriminate.
Qed.

Lemma bodyOverride_language (metadataLang : option jstring) (r : TextResult)
      (lang : jstring) :
  bodyOverride metadataLang r = Some lang -> language r = Some lang.
Proof.
  unfold bodyOverride. destruct (language r) as [[|c l]|]; try discriminate.
  destruct (_ && _); [congruence|].
  destruct (Qle_bool 0.7 (confidence r)); [congruence | discriminate].
Qed.

End ResolverFacts.

Section DetectionFacts.

Variable franc : jstring -> jstring.
Variable network : nat -> jstring -> Response.

Lemma webDetection_result (d : jstring) (w : World) :
  exists w', webDetection franc network d w = (Normal None, w')
             \/ exists l, webDetection franc network d w
                          = (Normal (Some (mkDetection l (js "web"))), w').
Proof.
  unfold webDetection, tryCatch, bind.
  destruct (fetchWebsite network d w) as [[html|e] w1].
  - destruct (detectLanguageFromHTML franc html defaultOptions) as [[|c l]|].
    + exists w1. now left.
    + destruct (negb (jstring_eqb (c :: l) (js "unknown"))).
      * eexists. right. exists (c :: l). reflexivity.
      * exists w1. now left.
    + exists w1. now left.
  - exists w1. now left.
Qed.

Lemma patternFallback_result (s : jstring) (tv : jsval) (domain : option jstring)
      (w : World) :
  exists l,
    In l languageNames
    /\ patternFallback (mkChannel (VString s) tv) domain w
       = (Normal (mkDetection l (js "pattern")),
          match domain with
          | Some d => mkWorld (set (languageCache w) d l (js "pattern") (now w))
                              (now w) (requests w)
          | None => w
          end).
Proof.
  unfold patternFallback, bind, lift, detectLanguageByPattern.
  cbn [name callToLowerCase cbind].
  destruct (firstMatch LANGUAGE_PATTERNS (toLowerCase s)) as [l|] eqn:E.
  - exists l. split; [now apply (pattern_name _ _ E)|].
    destruct domain; reflexivity.
  - destruct (test genericTerms (toLowerCase s)).
    + exists (js "hindi"). split; [vm_compute; tauto | destruct domain; reflexivity].
    + exists (js "unknown"). split; [vm_compute; tauto | destruct domain; reflexivity].
Qed.

(** What [detectLanguage] answers under the two name-based sources. *)
Lemma name_based_detection (channel : Channel) (w w' : World) (det : Detection) :
  detectLanguage franc network channel w = (Normal det, w') ->
  detectedSource det = js "name-explicit" \/ detectedSource det = js "pattern" ->
  In (detectedLanguage det) languageNames
  /\ forall d, extractDomain (tvgId channel) = Normal (Some d) ->
               exists entry,
                 cache (languageCache w') !! d = Some entry
                 /\ entryLanguage entry = detectedLanguage det
                 /\ entrySource entry = detectedSource det.
Proof.
  destruct channel as [nm tv]. cbn [tvgId].
  destruct (extractDomain_total tv) as [domain Hd].
  destruct (detectExplicitLanguageInName nm) as [[lang|]|e] eqn:He.
  - rewrite (detectLanguage_explicit _ _ _ _ _ _ _ Hd He).
    intros [= <- <-] _. cbn [detectedLanguage detectedSource]. split.
    + unfold detectExplicitLanguageInName in He.
      destruct nm; try discriminate. cbn in He. injection He as He.
      now apply (explicit_name _ _ He).
    + intros d Hd'. rewrite Hd in Hd'. injection Hd' as ->.
      eexists. cbn [languageCache]. rewrite set_cache.
      split; [apply lookup_insert_eq | split; reflexivity].
  - assert (exists s, nm = VString s) as [s ->].
    { unfold detectExplicitLanguageInName in He.
      destruct nm; try discriminate. now eexists. }
    unfold detectLanguage, bind, lift. cbn [name tvgId].
    rewrite Hd, He. cbn beta iota.
    assert (Hfall : forall w1,
               patternFallback (mkChannel (VString s) tv) domain w1 = (Normal det, w') ->
               In (detectedLanguage det) languageNames
               /\ forall d, Normal domain = Normal (Some d) ->
                            exists entry,
                              cache (languageCache w') !! d = Some entry
                              /\ entryLanguage entry = detectedLanguage det
                              /\ entrySource entry = detectedSource det).
    { intros w1 H.
      destruct (patternFallback_result s tv domain w1) as [l [Hl E]].
      rewrite E in H. injection H as <- <-. split; [exact Hl|].
      intros d [= ->]. eexists. cbn [languageCache]. rewrite set_cache.
      split; [apply lookup_insert_eq | split; reflexivity]. }
    destruct domain as [d|]; [|intros H _; now apply (Hfall w)].
    unfold cacheHas, cacheGet. cbn beta iota.
    destruct (has (languageCache w) d).
    + destruct (get (languageCache w) d) as [entry|]; cbn beta iota.
      * intros [= <- <-]. cbn [detectedSource]. intros [H|H]; discriminate.
      * discriminate.
    + destruct (webDetection_result d w) as [w1 [E|[l E]]]; rewrite E; cbn beta iota.
      * intros H _. now apply (Hfall w1).
      * intros [= <- <-]. cbn [detectedSource]. intros [H|H]; discriminate.
  - unfold detectLanguage, bind, lift. cbn [name tvgId].
    rewrite Hd, He. discriminate.
Qed.

End DetectionFacts.

(** C9: a detection whose source is [name-explicit] or [pattern] carries
    a full language name (or [unknown]), never a two-letter code, and the
    entry written to the cache holds the same name; a result that
    [detectLanguageFromHTML] returns through the conflict override or the
    high-confidence short-circuit is a full name too; and a result that is
    a two-letter code can only have come from the aggregation of signals
    (of the metadata signals in metadata-only mode). *)
Theorem names_and_codes :
  (forall franc network channel w w' det,
      detectLanguage franc network channel w = (Normal det, w') ->
      detectedSource det = js "name-explicit" \/ detectedSource det = js "pattern" ->
      In (detectedLanguage det) languageNames
      /\ isTwoLetterCode (detectedLanguage det) = false
      /\ forall d, extractDomain (tvgId channel) = Normal (Some d) ->
                   exists entry,
                     cache (languageCache w') !! d = Some entry
                     /\ entryLanguage entry = detectedLanguage det)
  /\ (forall franc html lang,
         bodyOverride (metaLanguage (detectLanguageFromMetadata html))
                      (detectLanguageFromBodyText franc html) = Some lang ->
         detectLanguageFromHTML franc html defaultOptions = Some lang
         /\ In lang languageNames
         /\ isTwoLetterCode lang = false)
  /\ (forall franc html options code,
         detectLanguageFromHTML franc html options = Some code ->
         isTwoLetterCode code = true ->
         if metadataOnly options
         then aggregateLanguageSignals (signals (detectLanguageFromMetadata html))
              = Some code
         else bodyOverride (metaLanguage (detectLanguageFromMetadata html))
                           (detectLanguageFromBodyText franc html) = None
              /\ aggregateLanguageSignals
                   (combinedSignals detectLanguageFromMetadata
                                    (detectLanguageFromBodyText franc) html options)
                 = Some code).
Proof.
  split; [|split].
  - intros franc network channel w w' det Hrun Hsrc.
    destruct (name_based_detection franc network channel w w' det Hrun Hsrc)
      as [Hname Hcache].
    split; [exact Hname|]. split; [now apply name_not_code|].
    intros d Hd. destruct (Hcache d Hd) as [entry [H1 [H2 _]]]. now exists entry.
  - intros franc html lang H.
    assert (In lang languageNames) as Hname.
    { apply bodyOverride_language in H. now apply (bodyText_name franc html). }
    split; [|split; [exact Hname | now apply name_not_code]].
    unfold detectLanguageFromHTML, detectLanguageFromHTMLWith.
    cbn [metadataOnly defaultOptions negb]. now rewrite H.
  - intros franc html [only] code. unfold detectLanguageFromHTML, detectLanguageFromHTMLWith.
    cbn [metadataOnly]. destruct only; cbn [negb].
    + intros H _. exact H.
    + destruct (bodyOverride _ _) as [lang|] eqn:E.
      * intros [= <-] Hcode. apply bodyOverride_language in E.
        apply (bodyText_name franc html), name_not_code in E. congruence.
      * intros H _. split; [reflexivity | exact H].
Qed.

(** The fallback on "Sun TV" with no domain, and a two-letter result. *)
Lemma names_and_codes_witness :
  In (js "tamil") languageNames
  /\ isTwoLetterCode (js "tamil") = false
  /\ aggregateLanguageSignals
       (combinedSignals detectLanguageFromMetadata
                        (detectLanguageFromBodyText francUndetermined)
                        frenchPage defaultOptions)
     = Some (js "fr").
Proof.
  destruct (proj1 names_and_codes francUndetermined offline
              (mkChannel (VString (js "Sun TV")) VNull) freshWorld freshWorld
              (mkDetection (js "tamil") (js "pattern")))
    as [Hname [Hcode _]].
  - vm_compute. reflexivity.
  - right. reflexivity.
  - split; [exact Hname|]. split; [exact Hcode|].
    refine (proj2 (proj2 (proj2 names_and_codes) francUndetermined frenchPage
                         defaultOptions (js "fr") _ _)).
    + vm_compute. reflexivity.
    + reflexivity.
Defined.

(** ** Confidence of the script detection *)

Section ConfidenceFacts.

Variable franc : jstring -> jstring.

Lemma script_detection_confidence (text : jstring) :
  method (analyzeTextLanguage franc text) = js "script-detection" ->
  confidence (analyzeTextLanguage franc text)
  = Qmin 0.95 (winningShare text * 10).
Proof.
  intros Hm.
  destruct (analyzeTextLanguage_cases franc text) as [H|[H|[H|[H|H]]]].
  - rewrite H in Hm. vm_compute in Hm. discriminate.
  - now apply scriptDetection_result in H as [_ [Hc _]].
  - apply statisticalDetection_result in H as [_ [[_ H]|[_ H]]];
      rewrite H in Hm; vm_compute in Hm; discriminate.
  - apply scriptFallback_result in H as [_ [_ H]].
    rewrite H in Hm. vm_compute in Hm. discriminate.
  - rewrite H in Hm. vm_compute in Hm. discriminate.
Qed.

Lemma confidence_capped (text : jstring) :
  (confidence (analyzeTextLanguage franc text) <= 0.95)%Q.
Proof.
  destruct (analyzeTextLanguage_cases franc text) as [H|[H|[H|[H|H]]]].
  - rewrite H. vm_compute. discriminate.
  - apply scriptDetection_result in H as [_ [Hc _]]. rewrite Hc.
    apply Q.le_min_l.
  - apply statisticalDetection_result in H as [_ [[H _]|[H _]]];
      rewrite H; vm_compute; discriminate.
  - apply scriptFallback_result in H as [_ [H _]].
    rewrite H. vm_compute. discriminate.
  - rewrite H. vm_compute. discriminate.
Qed.

End ConfidenceFacts.

(** C8: the confidence of every result of [analyzeTextLanguage] is at
    most 0.95; a result of the script detection has confidence
    [min(0.95, share * 10)], where [share] is the share of the winning
    script in the sample; and of two texts resolved by the script
    detection, the one with the higher share never has the lower
    confidence. *)
Theorem script_confidence_monotone :
  (forall franc text,
      (confidence (analyzeTextLanguage franc text) <= 0.95)%Q)
  /\ (forall franc text,
         method (analyzeTextLanguage franc text) = js "script-detection" ->
         confidence (analyzeTextLanguage franc text)
         = Qmin 0.95 (winningShare text * 10))
  /\ (forall franc text1 text2,
         method (analyzeTextLanguage franc text1) = js "script-detection" ->
         method (analyzeTextLanguage franc text2) = js "script-detection" ->
         (winningShare text1 <= winningShare text2)%Q ->
         (confidence (analyzeTextLanguage franc text1)
          <= confidence (analyzeTextLanguage franc text2))%Q).
Proof.
  split; [exact confidence_capped|]. split; [exact script_detection_confidence|].
  intros franc text1 text2 H1 H2 Hshare.
  rewrite (script_detection_confidence franc text1 H1),
    (script_detection_confidence franc text2 H2).
  apply Q.min_le_compat_l.
  apply Qmult_le_compat_r; [exact Hshare | vm_compute; discriminate].
Qed.

(** Sixty and eighty Tamil letters in a thousand characters. *)
Lemma script_confidence_monotone_witness :
  winningShare (tamilText 60) == 0.06
  /\ winningShare (tamilText 80) == 0.08
  /\ (confidence (analyzeTextLanguage francUndetermined (tamilText 60))
      <= confidence (analyzeTextLanguage francUndetermined (tamilText 80)))%Q.
Proof.
  split; [vm_compute; reflexivity|]. split; [vm_compute; reflexivity|].
  apply (proj2 (proj2 script_confidence_monotone)).
  - vm_compute. reflexivity.
  - vm_compute. reflexivity.
  - vm_compute. discriminate.
Defined.

(** C8, as worded for any two texts, fails: the share decides the
    confidence only inside the script detection.  Fifty-one Tamil letters
    among 1019 characters pass its two thresholds and get
    [510/1019], about 0.5005.  Fifty Tamil letters that are the whole text
    (share 1) miss the count of more than 50 and get 0.4 from the
    fallback, whatever the statistical detector says; and fifty-one Tamil
    letters among 1020 characters (share exactly 0.05, not above it) get
    0.7 once the statistical detector answers Tamil.  In both pairs the
    winning script and the language are the same, and the text with the
    higher share has the lower confidence. *)
Lemma higher_share_lower_confidence :
  (forall franc,
      language (analyzeTextLanguage franc (tamilAmong 51 1019)) = Some (js "tamil")
      /\ method (analyzeTextLanguage franc (tamilAmong 51 1019))
         = js "script-detection"
      /\ (confidence (analyzeTextLanguage franc (tamilAmong 51 1019)) == 510 # 1019)%Q
      /\ analyzeTextLanguage franc (tamilAmong 50 50)
         = mkTextResult (Some (js "tamil")) 0.4 (js "script-fallback")
      /\ (winningShare (tamilAmong 51 1019) < winningShare (tamilAmong 50 50))%Q
      /\ (confidence (analyzeTextLanguage franc (tamilAmong 50 50))
          < confidence (analyzeTextLanguage franc (tamilAmong 51 1019)))%Q)
  /\ analyzeTextLanguage francTamil (tamilAmong 51 1020)
     = mkTextResult (Some (js "tamil")) 0.7 (js "franc-statistical")
  /\ (winningShare (tamilAmong 51 1020) == 0.05)%Q
  /\ (winningShare (tamilAmong 51 1020) < winningShare (tamilAmong 51 1019))%Q
  /\ (confidence (analyzeTextLanguage francTamil (tamilAmong 51 1019))
      < confidence (analyzeTextLanguage francTamil (tamilAmong 51 1020)))%Q.
Proof.
  split.
  - intros franc. repeat split; vm_compute; reflexivity.
  - repeat split; vm_compute; reflexivity.
Qed.

(** ** What the aggregation computes on plain values *)

Lemma lowerUnit_no_upper (c : N) :
  Forall (fun x => isUpperAscii x = false) (lowerUnit c).
Proof.
  unfold lowerUnit.
  destruct (isUpperAscii c) eqn:U; [|destruct (c =? 304); [|destruct (c =? 8490)]].
  - constructor; [|constructor]. class_facts.
  - repeat constructor.
  - repeat constructor.
  - constructor; [exact U | constructor].
Qed.

Lemma toLowerCase_no_upper (s : jstring) :
  Forall (fun x => isUpperAscii x = false) (toLowerCase s).
Proof.
  unfold toLowerCase. induction s as [|c s IH]; simpl; [constructor|].
  apply Forall_app. split; [apply lowerUnit_no_upper | exact IH].
Qed.

Lemma dropWhile_Forall (P : N -> Prop) (p : N -> bool) (s : jstring) :
  Forall P s -> Forall P (dropWhile p s).
Proof.
  induction 1 as [|c s Hc Hs IH]; simpl; [constructor|].
  destruct (p c); [exact IH | now constructor].
Qed.

Lemma trim_Forall (P : N -> Prop) (s : jstring) :
  Forall P s -> Forall P (trim s).
Proof.
  intros H. unfold trim, trimEnd, trimStart.
  apply Forall_rev, dropWhile_Forall, Forall_rev, dropWhile_Forall, H.
Qed.

(** A lower-cased key reaches nothing else on [Object.prototype]. *)
Lemma objectPrototypeGet_lower (key : jstring) :
  Forall (fun x => isUpperAscii x = false) key ->
  key <> js "constructor" -> key <> js "__proto__" ->
  objectPrototypeGet key = VUndefined.
Proof.
  intros Hlow Hc Hp. unfold objectPrototypeGet.
  rewrite (jstring_eqb_neq _ _ Hc), (jstring_eqb_neq _ _ Hp).
  match goal with |- context [existsb _ ?names] => set (inherited := names) end.
  destruct (existsb (jstring_eqb key) inherited) eqn:E; [|reflexivity].
  apply existsb_exists in E as [n [Hin Heq]]. apply jstring_eqb_eq in Heq. subst n.
  assert (forallb (fun n => existsb isUpperAscii n) inherited = true) as Hup
      by (vm_compute; reflexivity).
  rewrite forallb_forall in Hup. apply Hup in Hin.
  apply existsb_exists in Hin as [x [Hx Hu]].
  rewrite List.Forall_forall in Hlow. apply Hlow in Hx. congruence.
Qed.

Lemma test_isoCode_empty : test isoCodePattern [] = false.
Proof. reflexivity. Qed.

Lemma test_locale_short (n : jstring) :
  test localePattern n = true -> exists a b c rest, n = a :: b :: c :: rest.
Proof.
  destruct n as [|a [|b [|c rest]]]; intros H.
  - discriminate.
  - unfold localePattern, Exactly2 in H. cbn [seqs] in H.
    rewrite test_anchored in H. simpl in H.
    rewrite andb_false_r in H. discriminate.
  - unfold localePattern, Exactly2 in H. cbn [seqs] in H.
    rewrite test_anchored in H. simpl in H.
    rewrite !andb_false_r in H. discriminate.
  - now exists a, b, c, rest.
Qed.

(** On a plain value [normalizeLanguageCode] answers null or a non-empty
    string. *)
Lemma normalize_plain (signal : Signal) :
  plainValue signal ->
  normalizeLanguageCode (value signal) = VNull
  \/ exists code, code <> [] /\ normalizeLanguageCode (value signal) = VString code.
Proof.
  intros Hplain. unfold plainValue in Hplain.
  destruct (value signal) as [| |b|q|s| | |]; try (now left).
  destruct s as [|x s]; [now left|].
  destruct (Hplain _ eq_refl) as [Hc Hp]. clear Hplain.
  unfold normalizeLanguageCode. cbv zeta.
  set (normalized := trim (toLowerCase (x :: s))) in *.
  destruct (test isoCodePattern normalized) eqn:T1.
  - right. exists normalized. split; [|reflexivity].
    intros E. rewrite E in T1. discriminate.
  - destruct (test localePattern normalized) eqn:T2.
    + right. apply test_locale_short in T2 as [a [b [c [rest ->]]]].
      exists [a; b]. split; [discriminate | reflexivity].
    + unfold literalGet. destruct (assoc normalized langMap) as [v|] eqn:A.
      * right. exists v.
        assert (v <> []) as Hv.
        { apply assoc_value in A.
          assert (forallb nonEmpty (List.map snd langMap) = true) as Hall
              by (vm_compute; reflexivity).
          rewrite forallb_forall in Hall. apply Hall in A.
          intros ->. discriminate. }
        split; [exact Hv|]. destruct v; [congruence | reflexivity].
      * left. rewrite objectPrototypeGet_lower; [reflexivity | | exact Hc | exact Hp].
        apply trim_Forall, toLowerCase_no_upper.
Qed.

Lemma score_step_plain (scores : list (jstring * Q)) (signal : Signal) :
  plainValue signal ->
  (let langCode := normalizeLanguageCode (value signal) in
   if truthy langCode
   then addScore (toPropertyKey langCode) (weight signal) scores
   else scores)
  = match codeOf signal with
    | Some c => addScore c (weight signal) scores
    | None => scores
    end.
Proof.
  intros H. unfold codeOf. cbv zeta.
  destruct (normalize_plain signal H) as [->|[code [Hne ->]]]; [reflexivity|].
  destruct code; [congruence | reflexivity].
Qed.

(** *** The scores *)

Lemma addScore_new (key : jstring) (w : Q) (scores : list (jstring * Q)) :
  ~ In key (List.map fst scores) ->
  addScore key w scores = scores ++ [(key, (0 + w)%Q)].
Proof.
  induction scores as [|[k t] scores IH]; simpl; intros Hnot; [reflexivity|].
  destruct (jstring_eqb k key) eqn:E.
  - apply jstring_eqb_eq in E. exfalso. apply Hnot. now left.
  - rewrite IH; [reflexivity|]. intros Hin. apply Hnot. now right.
Qed.

Lemma addScore_old (key : jstring) (w : Q) (scores : list (jstring * Q)) :
  In key (List.map fst scores) ->
  exists l1 t l2 t',
    scores = l1 ++ (key, t) :: l2
    /\ addScore key w scores = l1 ++ (key, t') :: l2
    /\ (t' == t + w)%Q.
Proof.
  induction scores as [|[k t] scores IH]; simpl; intros Hin; [contradiction|].
  destruct (jstring_eqb k key) eqn:E.
  - apply jstring_eqb_eq in E. subst k.
    exists [], t, scores. eexists. split; [reflexivity|]. split; [reflexivity|].
    destruct (Qeq_bool t 0) eqn:Z; [|reflexivity].
    apply Qeq_bool_iff in Z. now rewrite Z.
  - destruct Hin as [Hk|Hin].
    + simpl in Hk. subst k. now rewrite jstring_eqb_refl in E.
    + destruct (IH Hin) as [l1 [t0 [l2 [t' [E1 [E2 Ht]]]]]].
      exists ((k, t) :: l1), t0, l2, t'. simpl. now rewrite E1 at 1; rewrite E2.
Qed.

Lemma totalOf_app (code : jstring) (l1 l2 : list Signal) :
  (totalOf code (l1 ++ l2) == totalOf code l1 + totalOf code l2)%Q.
Proof.
  induction l1 as [|s l1 IH]; simpl; [ring|]. rewrite IH. ring.
Qed.

Lemma totalOf_other (code : jstring) (seen : list Signal) (s : Signal) :
  codeOf s <> Some code ->
  (totalOf code (seen ++ [s]) == totalOf code seen)%Q.
Proof.
  intros H. rewrite totalOf_app. simpl.
  destruct (codeOf s) as [c|]; [|ring].
  destruct (jstring_eqb c code) eqn:E; [|ring].
  apply jstring_eqb_eq in E. congruence.
Qed.

Lemma totalOf_same (code : jstring) (seen : list Signal) (s : Signal) :
  codeOf s = Some code ->
  (totalOf code (seen ++ [s]) == totalOf code seen + weight s)%Q.
Proof.
  intros H. rewrite totalOf_app. simpl. rewrite H, jstring_eqb_refl. ring.
Qed.

Lemma totalOf_unseen (code : jstring) (seen : list Signal) :
  (forall s, In s seen -> codeOf s <> Some code) ->
  (totalOf code seen == 0)%Q.
Proof.
  induction seen as [|s seen IH]; simpl; intros H; [reflexivity|].
  rewrite IH by (intros; apply H; now right).
  specialize (H s (or_introl eq_refl)).
  destruct (codeOf s) as [c|]; [|ring].
  destruct (jstring_eqb c code) eqn:E; [|ring].
  apply jstring_eqb_eq in E. congruence.
Qed.

Lemma NoDup_snoc (l : list jstring) (c : jstring) :
  List.NoDup l -> ~ In c l -> List.NoDup (l ++ [c]).
Proof.
  induction l as [|x l IH]; simpl; intros Hl Hc.
  - apply List.NoDup_cons; [intros H; exact H | apply List.NoDup_nil].
  - apply List.NoDup_cons_iff in Hl as [Hx Hl]. apply List.NoDup_cons.
    + intros Hin. apply in_app_or in Hin as [Hin|[->|[]]]; [contradiction|].
      apply Hc. now left.
    + apply IH; [exact Hl|]. intros Hin. apply Hc. now right.
Qed.

Lemma ScoresOf_nil : ScoresOf [] [].
Proof.
  split; [constructor|]. split; [intros c t []|]. split; [intros s c []|].
  intros k1 c k2 E. destruct k1; discriminate.
Qed.

Lemma ScoresOf_step (scores : list (jstring * Q)) (seen : list Signal) (s : Signal) :
  ScoresOf scores seen -> ScoresOf (scoreStep scores s) (seen ++ [s]).
Proof.
  intros [I1 [I2 [I3 I4]]]. unfold scoreStep.
  destruct (codeOf s) as [c|] eqn:Hs.
  - destruct (List.in_dec (List.list_eq_dec N.eq_dec) c (List.map fst scores))
      as [Hin|Hnot].
    + (* the code has an entry: it is updated in place *)
      destruct (addScore_old c (weight s) scores Hin)
        as [l1 [t [l2 [t' [E1 [E2 Ht]]]]]].
      assert (Hkeys : List.map fst (addScore c (weight s) scores) = List.map fst scores).
      { rewrite E2, E1, !map_app. reflexivity. }
      assert (Hout : ~ In c (List.map fst (l1 ++ l2))).
      { rewrite map_app. apply List.NoDup_remove_2.
        rewrite E1, map_app in I1. exact I1. }
      split; [now rewrite Hkeys|]. split; [|split].
      * intros c0 t0 H0. rewrite E2 in H0.
        apply in_app_or in H0 as [H0|[H0|H0]].
        -- assert (c0 <> c) as Hne.
           { intros ->. apply Hout. apply in_map_iff. exists (c, t0).
             split; [reflexivity | apply in_or_app; now left]. }
           rewrite totalOf_other by congruence.
           apply I2. rewrite E1. apply in_or_app. now left.
        -- injection H0 as <- <-. rewrite totalOf_same by exact Hs.
           rewrite Ht. apply Qplus_inj_r. apply I2. rewrite E1.
           apply in_or_app. right. now left.
        -- assert (c0 <> c) as Hne.
           { intros ->. apply Hout. apply in_map_iff. exists (c, t0).
             split; [reflexivity | apply in_or_app; now right]. }
           rewrite totalOf_other by congruence.
           apply I2. rewrite E1. apply in_or_app. right. now right.
      * intros s0 c0 H0 Hc0. rewrite Hkeys.
        apply in_app_or in H0 as [H0|[<-|[]]]; [now apply (I3 s0)|].
        assert (c0 = c) as -> by congruence. exact Hin.
      * intros k1 c0 k2 E. rewrite Hkeys in E.
        destruct (I4 _ _ _ E) as [before [s0 [after [-> [Hc0 Hb]]]]].
        exists before, s0, (after ++ [s]). rewrite <- app_assoc. auto.
    + (* a new code: its entry goes last *)
      rewrite (addScore_new _ _ _ Hnot).
      assert (Hunseen : forall s0, In s0 seen -> codeOf s0 <> Some c)
        by (intros s0 H0 Hc0; apply Hnot; now apply (I3 s0)).
      split; [|split; [|split]].
      * rewrite map_app. now apply NoDup_snoc.
      * intros c0 t0 H0. apply in_app_or in H0 as [H0|[H0|[]]].
        -- assert (c0 <> c) as Hne.
           { intros ->. apply Hnot. apply in_map_iff. now exists (c, t0). }
           rewrite totalOf_other by congruence. now apply I2.
        -- injection H0 as <- <-. rewrite totalOf_same by exact Hs.
           now rewrite (totalOf_unseen c seen Hunseen).
      * intros s0 c0 H0 Hc0. rewrite map_app. apply in_or_app.
        apply in_app_or in H0 as [H0|[<-|[]]]; [left; now apply (I3 s0)|].
        right. left. rewrite Hs in Hc0. now injection Hc0.
      * intros k1 c0 k2 E. rewrite map_app in E. simpl in E.
        destruct (exists_last (l := c0 :: k2)) as [k2' [x Ex]]; [discriminate|].
        rewrite Ex, app_assoc in E. apply app_inj_tail in E as [E <-].
        destruct k2' as [|c1 k2'].
        -- simpl in Ex. injection Ex as -> ->. rewrite app_nil_r in E. subst k1.
           exists seen, s, []. split; [reflexivity|]. split; [exact Hs|].
           intros x c' Hx Hc'. now apply (I3 x).
        -- simpl in Ex. injection Ex as -> ->.
           destruct (I4 _ _ _ E) as [before [s0 [after [-> [Hc0 Hb]]]]].
           exists before, s0, (after ++ [s]). rewrite <- app_assoc. auto.
  - split; [exact I1|]. split; [|split].
    + intros c t H. rewrite totalOf_other by congruence. now apply I2.
    + intros s0 c0 H0 Hc0.
      apply in_app_or in H0 as [H0|[<-|[]]]; [now apply (I3 s0) | congruence].
    + intros k1 c0 k2 E.
      destruct (I4 _ _ _ E) as [before [s0 [after [-> [Hc0 Hb]]]]].
      exists before, s0, (after ++ [s]). rewrite <- app_assoc. auto.
Qed.

Lemma ScoresOf_fold (rest : list Signal) : forall scores seen,
    ScoresOf scores seen ->
    ScoresOf (fold_left scoreStep rest scores) (seen ++ rest).
Proof.
  induction rest as [|s rest IH]; intros scores seen H; simpl.
  - now rewrite app_nil_r.
  - replace (seen ++ s :: rest) with ((seen ++ [s]) ++ rest)
      by now rewrite <- app_assoc.
    apply IH. now apply ScoresOf_step.
Qed.

Lemma scoreSignals_plain (signals : list Signal) :
  Forall plainValue signals ->
  scoreSignals signals = fold_left scoreStep signals [].
Proof.
  unfold scoreSignals. generalize (@nil (jstring * Q)).
  induction signals as [|s signals IH]; intros acc H; simpl; [reflexivity|].
  inversion H as [|? ? Hs Hrest]; subst.
  rewrite <- IH by exact Hrest. f_equal.
  apply (score_step_plain acc s Hs).
Qed.

Lemma scoreSignals_ScoresOf (signals : list Signal) :
  Forall plainValue signals -> ScoresOf (scoreSignals signals) signals.
Proof.
  intros H. rewrite (scoreSignals_plain _ H).
  apply (ScoresOf_fold signals [] []), ScoresOf_nil.
Qed.

(** *** The stable sort *)

Lemma Qlt_bool_iff (a b : Q) : Qlt_bool a b = true <-> (a < b)%Q.
Proof.
  unfold Qlt_bool. rewrite negb_true_iff. split.
  - intros H. apply Qnot_le_lt. intros Hle.
    apply Qle_bool_iff in Hle. congruence.
  - intros H. destruct (Qle_bool b a) eqn:E; [|reflexivity].
    apply Qle_bool_iff in E. exfalso. now apply (Qlt_not_le a b).
Qed.

(** The head of the sorted entries is the first entry of highest score. *)
Lemma sortBy_first_maximum (entries : list (jstring * Q)) :
  entries <> [] ->
  exists l1 first l2 rest,
    entries = l1 ++ first :: l2
    /\ sortBy (fun a b => (snd b - snd a)%Q) entries = first :: rest
    /\ (forall x, In x l1 -> (snd x < snd first)%Q)
    /\ (forall x, In x l2 -> (snd x <= snd first)%Q).
Proof.
  induction entries as [|e l IH]; [congruence|]. intros _.
  destruct l as [|e' l'].
  - exists [], e, [], []. repeat split; intros x [].
  - destruct IH as [l1 [h [l2 [rest [E [Hs [H1 H2]]]]]]]; [discriminate|].
    change (sortBy (fun a b => (snd b - snd a)%Q) (e :: e' :: l'))
      with (insertSorted (fun a b => (snd b - snd a)%Q) e
              (sortBy (fun a b => (snd b - snd a)%Q) (e' :: l'))).
    rewrite Hs. cbn [insertSorted].
    destruct (Qlt_bool (snd e - snd h) 0) eqn:C.
    + apply Qlt_bool_iff in C.
      assert (snd e < snd h)%Q as Hlt by lra.
      exists (e :: l1), h, l2. eexists.
      split; [now rewrite E|]. split; [reflexivity|]. split; [|exact H2].
      intros x [<-|Hx]; [exact Hlt | now apply H1].
    + assert (snd h <= snd e)%Q as Hle.
      { apply Qnot_lt_le. intros Hlt.
        assert (snd e - snd h < 0)%Q as Hneg by lra.
        apply Qlt_bool_iff in Hneg. congruence. }
      exists [], e, (e' :: l'). eexists.
      split; [reflexivity|]. split; [reflexivity|]. split; [intros x []|].
      intros x Hx. rewrite E in Hx.
      apply in_app_or in Hx as [Hx|[<-|Hx]].
      * apply Qlt_le_weak. eapply Qlt_le_trans; [apply H1, Hx | exact Hle].
      * exact Hle.
      * eapply Qle_trans; [apply H2, Hx | exact Hle].
Qed.

(** X1: on plain values the aggregation answers null exactly when no value
    normalizes, and otherwise the code of highest total, the first seen
    among equals: every code has a total at most that of the answer, and
    every code seen before the answer's first occurrence a total strictly
    below it. *)
Lemma aggregate_first_maximum (signals : list Signal) :
  Forall plainValue signals ->
  match aggregateLanguageSignals signals with
  | None => Forall (fun s => codeOf s = None) signals
  | Some code =>
      exists before s after,
        signals = before ++ s :: after
        /\ codeOf s = Some code
        /\ Forall (fun x => codeOf x <> Some code) before
        /\ (forall x c, In x signals -> codeOf x = Some c ->
                        (totalOf c signals <= totalOf code signals)%Q)
        /\ (forall x c, In x before -> codeOf x = Some c ->
                        (totalOf c signals < totalOf code signals)%Q)
  end.
Proof.
  intros Hplain.
  destruct (scoreSignals_ScoresOf signals Hplain) as [I1 [I2 [I3 I4]]].
  unfold aggregateLanguageSignals.
  destruct signals as [|s0 signals']; [constructor|].
  set (signals := s0 :: signals') in *.
  cbn [List.length Nat.eqb].
  destruct (scoreSignals signals) as [|e entries'] eqn:Escores.
  - (* no entry: no signal has a code *)
    cbn [List.length Nat.eqb]. apply List.Forall_forall. intros s Hs.
    destruct (codeOf s) as [c|] eqn:Hc; [|reflexivity].
    destruct (I3 s c Hs Hc).
  - cbn [List.length Nat.eqb].
    destruct (sortBy_first_maximum (e :: entries')) as
        [l1 [[code t] [l2 [rest [E [Hsort [Hl1 Hl2]]]]]]]; [discriminate|].
    rewrite Hsort. cbn [fst].
    assert (Hkeys : List.map fst (e :: entries')
                    = List.map fst l1 ++ code :: List.map fst l2)
      by (rewrite E, map_app; reflexivity).
    destruct (I4 _ _ _ Hkeys) as [before [s [after [Es [Hcode Hbefore]]]]].
    assert (Ht : (t == totalOf code signals)%Q).
    { apply I2. rewrite E. apply in_or_app. right. now left. }
    assert (Hstrict : forall x c, In x before -> codeOf x = Some c ->
                                  (totalOf c signals < totalOf code signals)%Q).
    { intros x c Hx Hc. specialize (Hbefore x c Hx Hc).
      apply in_map_iff in Hbefore as [[c' t'] [Ec Hin]]. simpl in Ec. subst c'.
      rewrite <- Ht, <- (I2 c t').
      - apply (Hl1 _ Hin).
      - rewrite E. apply in_or_app. now left. }
    exists before, s, after. split; [exact Es|]. split; [exact Hcode|].
    split; [|split; [|exact Hstrict]].
    + apply List.Forall_forall. intros x Hx Hc.
      apply (Qlt_irrefl (totalOf code signals)). now apply (Hstrict x code).
    + intros x c Hx Hc. specialize (I3 x c Hx Hc).
      apply in_map_iff in I3 as [[c' t'] [Ec Hin]]. simpl in Ec. subst c'.
      rewrite <- Ht, <- (I2 c t' Hin). rewrite E in Hin.
      apply in_app_or in Hin as [Hin|[Hin|Hin]].
      * apply Qlt_le_weak. apply (Hl1 _ Hin).
      * injection Hin as _ <-. apply Qle_refl.
      * apply (Hl2 _ Hin).
Qed.

(* ================================================================== *)
(** * Part III: further properties *)
(* ================================================================== *)

(** ** More on the full-HTML resolver *)

Lemma bodyOverride_sure (metadataLang : option jstring) (r : TextResult)
      (lang : jstring) :
  language r = Some lang -> lang <> [] -> (0.7 <= confidence r)%Q ->
  bodyOverride metadataLang r = Some lang.
Proof.
  intros Hbody Hne Hconf. unfold bodyOverride.
  rewrite Hbody. destruct lang as [|c lang]; [congruence|].
  apply Qle_bool_iff in Hconf. rewrite Hconf.
  now destruct (_ && _).
Qed.

Lemma bodyOverride_english (r : TextResult) (lang : jstring) :
  language r = Some lang -> lang <> [] -> lang <> js "en" ->
  (0.5 <= confidence r)%Q ->
  bodyOverride (Some (js "en")) r = Some lang.
Proof.
  intros Hbody Hne Hen Hconf. unfold bodyOverride.
  rewrite Hbody. destruct lang as [|c lang]; [congruence|].
  rewrite jstring_eqb_refl, (jstring_eqb_neq _ _ Hen).
  apply Qle_bool_iff in Hconf. now rewrite Hconf.
Qed.

Lemma resolver_override (Html : Type) (metadataAnalyzer : Html -> MetadataResult)
      (bodyTextAnalyzer : Html -> TextResult) (html : Html) (lang : jstring) :
  bodyOverride (metaLanguage (metadataAnalyzer html)) (bodyTextAnalyzer html)
  = Some lang ->
  detectLanguageFromHTMLWith metadataAnalyzer bodyTextAnalyzer html defaultOptions
  = Some lang.
Proof.
  intros H. unfold detectLanguageFromHTMLWith. cbn [metadataOnly defaultOptions negb].
  now rewrite H.
Qed.

Lemma name_not_empty (l : jstring) : In l languageNames -> l <> [].
Proof. intros H ->. vm_compute in H. intuition discriminate. Qed.

(** X2: a body-text result with a language and confidence at least 0.7
    is the answer of the resolver in default mode, whatever the metadata
    analyzer found. *)
Theorem high_confidence_short_circuit
        (Html : Type) (metadataAnalyzer : Html -> MetadataResult)
        (bodyTextAnalyzer : Html -> TextResult) (html : Html) (lang : jstring) :
  language (bodyTextAnalyzer html) = Some lang ->
  lang <> [] ->
  (0.7 <= confidence (bodyTextAnalyzer html))%Q ->
  detectLanguageFromHTMLWith metadataAnalyzer bodyTextAnalyzer html defaultOptions
  = Some lang.
Proof.
  intros Hbody Hne Hconf.
  now apply resolver_override, bodyOverride_sure.
Qed.

(** A Hindi template (whose signals alone would win the aggregation 16 to
    15) around a body found to be Tamil with confidence 0.7. *)
Lemma high_confidence_short_circuit_witness :
  aggregateLanguageSignals
    (combinedSignals (fun _ : unit => detectLanguageFromMetadata hindiTemplatePage)
                     (fun _ => bodyTamilSure) tt defaultOptions)
  = Some (js "hi")
  /\ detectLanguageFromHTMLWith
       (fun _ : unit => detectLanguageFromMetadata hindiTemplatePage)
       (fun _ => bodyTamilSure) tt defaultOptions
     = Some (js "tamil").
Proof.
  split; [vm_compute; reflexivity|].
  apply (high_confidence_short_circuit unit
           (fun _ => detectLanguageFromMetadata hindiTemplatePage)
           (fun _ => bodyTamilSure) tt (js "tamil")).
  - reflexivity.
  - discriminate.
  - vm_compute. discriminate.
Defined.



(** ** More on the text analyzer *)

Lemma scriptDetection_detail (maxScript : option jstring * nat) (scriptRatio : Q)
      (r : TextResult) :
  scriptDetection maxScript scriptRatio = Some r ->
  exists l, r = mkTextResult (Some l) (Qmin 0.95 (scriptRatio * 10))
                             (js "script-detection")
            /\ l <> js "english" /\ In l languageNames
            /\ (0.05 < scriptRatio)%Q /\ (50 < snd maxScript)%nat.
Proof.
  unfold scriptDetection.
  destruct ((50 <? snd maxScript)%nat && Qlt_bool 0.05 scriptRatio) eqn:C;
    [|discriminate].
  apply andb_true_iff in C as [C1 C2].
  apply Nat.ltb_lt in C1. apply Qlt_bool_iff in C2.
  destruct (scriptLanguage (fst maxScript)) as [lang|] eqn:E; [|discriminate].
  destruct (jstring_eqb lang (js "english")) eqn:N; [discriminate|].
  intros [= <-]. exists lang. split; [reflexivity|].
  split; [intros ->; now rewrite jstring_eqb_refl in N|].
  split; [now apply (scriptLanguage_name _ _ E) | auto].
Qed.

Lemma scriptFallback_detail (maxScript : option jstring * nat) (r : TextResult) :
  scriptFallback maxScript = Some r ->
  exists l, r = mkTextResult (Some l) 0.4 (js "script-fallback")
            /\ In l languageNames /\ (20 < snd maxScript)%nat.
Proof.
  unfold scriptFallback.
  destruct (20 <? snd maxScript)%nat eqn:C; [|discriminate].
  apply Nat.ltb_lt in C.
  destruct (scriptLanguage (fst maxScript)) as [lang|] eqn:E; [|discriminate].
  intros [= <-]. exists lang. split; [reflexivity|].
  split; [now apply (scriptLanguage_name _ _ E) | exact C].
Qed.

Lemma statisticalDetection_detail (franc : jstring -> jstring) (cleanText : jstring)
      (maxScript : option jstring * nat) (scriptRatio : Q) (r : TextResult) :
  statisticalDetection franc cleanText maxScript scriptRatio = Some r ->
  (100 <= List.length cleanText)%nat
  /\ ((exists l, r = mkTextResult (Some l) 0.7 (js "franc-statistical")
                 /\ l <> js "english" /\ In l languageNames)
      \/ r = mkTextResult (Some (js "english")) 0.6 (js "franc-english")
         /\ (0.3 < scriptRatio)%Q /\ fst maxScript = Some (js "latin")).
Proof.
  unfold statisticalDetection.
  destruct (100 <=? List.length cleanText)%nat eqn:C; [|discriminate].
  apply Nat.leb_le in C. cbv zeta.
  destruct (assoc (franc cleanText) FRANC_TO_LANGUAGE_NAME) as [[fl|]|] eqn:F;
    try discriminate.
  destruct (jstring_eqb fl (js "english")) eqn:N; cbn [negb].
  - destruct (Qlt_bool 0.3 scriptRatio) eqn:Q3; [|discriminate].
    destruct (fst maxScript) as [name|] eqn:M; [|discriminate].
    destruct (jstring_eqb name (js "latin")) eqn:La; [|discriminate].
    intros [= <-]. split; [exact C|]. right.
    apply Qlt_bool_iff in Q3. apply jstring_eqb_eq in La. subst name. auto.
  - intros [= <-]. split; [exact C|]. left. exists fl.
    split; [reflexivity|].
    split; [intros ->; now rewrite jstring_eqb_refl in N|].
    now apply (franc_name _ _ F).
Qed.

(** X5: every result of [analyzeTextLanguage] is of one of two kinds.
    Without a language its confidence is 0 and its method is
    [insufficient-text] or [undetermined].  With a language, the language
    is a full name, the confidence lies between 0.4 and 0.95, and English
    is never the answer of the script detection and never has confidence
    above 0.6. *)
Theorem text_result_invariant (franc : jstring -> jstring) (text : jstring) :
  match language (analyzeTextLanguage franc text) with
  | None =>
      confidence (analyzeTextLanguage franc text) = 0%Q
      /\ (method (analyzeTextLanguage franc text) = js "insufficient-text"
          \/ method (analyzeTextLanguage franc text) = js "undetermined")
  | Some l =>
      In l languageNames
      /\ (0.4 <= confidence (analyzeTextLanguage franc text) <= 0.95)%Q
      /\ (l = js "english" ->
          method (analyzeTextLanguage franc text) <> js "script-detection"
          /\ (confidence (analyzeTextLanguage franc text) <= 0.6)%Q)
  end.
Proof.
  destruct (analyzeTextLanguage_cases franc text) as [H|[H|[H|[H|H]]]].
  - rewrite H. cbn. auto.
  - apply scriptDetection_detail in H as [l [-> [Hne [Hin [Hr _]]]]]. cbn.
    split; [exact Hin|]. split; [|intros E; now elim Hne].
    split; [|apply Q.le_min_l].
    apply Q.min_glb; [vm_compute; discriminate | lra].
  - apply statisticalDetection_detail in H as [_ [[l [-> [Hne Hin]]]|[-> _]]]; cbn.
    + split; [exact Hin|].
      split; [split; vm_compute; discriminate | intros E; now elim Hne].
    + split; [vm_compute; tauto|].
      split; [split; vm_compute; discriminate|].
      intros _. split; [vm_compute; discriminate | vm_compute; discriminate].
  - apply scriptFallback_detail in H as [l [-> [Hin _]]]. cbn.
    split; [exact Hin|].
    split; [split; vm_compute; discriminate|].
    intros _. split; [vm_compute; discriminate | vm_compute; discriminate].
  - rewrite H. cbn. auto.
Qed.

(** A text is analysed only when, cleaned, it has fifty characters. *)
Lemma short_text_insufficient (franc : jstring -> jstring) (text : jstring) :
  (List.length (trim (collapseSpaces false text)) < 50)%nat ->
  analyzeTextLanguage franc text = mkTextResult None 0 (js "insufficient-text").
Proof.
  intros H. unfold analyzeTextLanguage. apply Nat.ltb_lt in H. now rewrite H.
Qed.

(** X4: under English metadata a body resolved by the script detection
    always decides: its confidence is above 0.5, the threshold of the
    conflict override. *)
Theorem script_detection_beats_english_metadata
        (franc : jstring -> jstring) (html : Page) :
  metaLanguage (detectLanguageFromMetadata html) = Some (js "en") ->
  method (detectLanguageFromBodyText franc html) = js "script-detection" ->
  (0.5 < confidence (detectLanguageFromBodyText franc html))%Q
  /\ exists lang, language (detectLanguageFromBodyText franc html) = Some lang
                  /\ lang <> js "english"
                  /\ detectLanguageFromHTML franc html defaultOptions = Some lang.
Proof.
  intros Hmeta Hmethod.
  assert (detectLanguageFromBodyText franc html
          = analyzeTextLanguage franc (visibleText html)) as Hbody.
  { unfold detectLanguageFromBodyText in *. cbv zeta in *.
    destruct (detectLanguageFromDescription (VString (visibleText html)));
      [|reflexivity].
    cbn in Hmethod. vm_compute in Hmethod. discriminate. }
  rewrite Hbody in *.
  destruct (analyzeTextLanguage_cases franc (visibleText html)) as [H|[H|[H|[H|H]]]].
  - rewrite H in Hmethod. vm_compute in Hmethod. discriminate.
  - apply scriptDetection_detail in H as [l [E [Hne [Hin [Hr _]]]]].
    rewrite E in *. cbn [language confidence].
    assert (0.5 < Qmin 0.95 (winningShare (visibleText html) * 10))%Q as Hc
        by (apply Q.min_glb_lt; [vm_compute; reflexivity | lra]).
    split; [exact Hc|]. exists l. split; [reflexivity|]. split; [exact Hne|].
    unfold detectLanguageFromHTML. apply resolver_override.
    rewrite Hmeta. apply bodyOverride_english.
    + rewrite Hbody. reflexivity.
    + now apply name_not_empty.
    + intros ->. vm_compute in Hin. intuition discriminate.
    + rewrite Hbody. cbn. now apply Qlt_le_weak.
  - apply statisticalDetection_detail in H as [_ [[l [E _]]|[E _]]];
      rewrite E in Hmethod; vm_compute in Hmethod; discriminate.
  - apply scriptFallback_detail in H as [l [E _]].
    rewrite E in Hmethod. vm_compute in Hmethod. discriminate.
  - rewrite H in Hmethod. vm_compute in Hmethod. discriminate.
Qed.

(** The signals of [tiedSignals]: [ta] and [hi] both total 11, [ta] is
    seen first. *)
Lemma aggregate_first_maximum_witness :
  Forall plainValue tiedSignals
  /\ (totalOf (js "hi") tiedSignals == totalOf (js "ta") tiedSignals)%Q
  /\ match aggregateLanguageSignals tiedSignals with
     | None => Forall (fun s => codeOf s = None) tiedSignals
     | Some code =>
         exists before s after,
           tiedSignals = before ++ s :: after
           /\ codeOf s = Some code
           /\ Forall (fun x => codeOf x <> Some code) before
           /\ (forall x c, In x tiedSignals -> codeOf x = Some c ->
                           (totalOf c tiedSignals <= totalOf code tiedSignals)%Q)
           /\ (forall x c, In x before -> codeOf x = Some c ->
                           (totalOf c tiedSignals < totalOf code tiedSignals)%Q)
     end.
Proof.
  assert (Forall plainValue tiedSignals) as Hplain.
  { unfold tiedSignals.
    repeat (apply List.Forall_cons; [intros s Hs; cbn in Hs; injection Hs as <-;
                                 vm_compute; split; discriminate|]).
    apply List.Forall_nil. }
  split; [exact Hplain|]. split; [vm_compute; reflexivity|].
  exact (aggregate_first_maximum tiedSignals Hplain).
Defined.

(** Fifty-one Tamil letters among sixty characters, under [<html lang="en">]. *)
Lemma script_detection_beats_english_metadata_witness :
  metaLanguage (detectLanguageFromMetadata tamilBodyPage) = Some (js "en")
  /\ (0.5 < confidence (detectLanguageFromBodyText francUndetermined tamilBodyPage))%Q
  /\ exists lang,
       language (detectLanguageFromBodyText francUndetermined tamilBodyPage) = Some lang
       /\ lang <> js "english"
       /\ detectLanguageFromHTML francUndetermined tamilBodyPage defaultOptions
          = Some lang.
Proof.
  split; [vm_compute; reflexivity|].
  apply (script_detection_beats_english_metadata francUndetermined tamilBodyPage).
  - vm_compute. reflexivity.
  - vm_compute. reflexivity.
Defined.

(** ** fetchWebsite *)

Section FetchFacts.

Variable network : nat -> jstring -> Response.

Lemma Unanswered_nil (start : nat) : Unanswered network start [].
Proof. intros [|i] url H; discriminate. Qed.

Lemma Unanswered_cons (start : nat) (url : jstring) (urls : list jstring) :
  documentOf (network start url) = None ->
  Unanswered network (S start) urls ->
  Unanswered network start (url :: urls).
Proof.
  intros H0 H [|i] u Hi.
  - injection Hi as <-. now rewrite Nat.add_0_r.
  - rewrite Nat.add_succ_r. apply (H i u Hi).
Qed.

Lemma Unanswered_app (start : nat) (l1 l2 : list jstring) :
  Unanswered network start l1 ->
  Unanswered network (start + List.length l1) l2 ->
  Unanswered network start (l1 ++ l2).
Proof.
  revert start. induction l1 as [|u l1 IH]; intros start H1 H2.
  - simpl in *. now rewrite Nat.add_0_r in H2.
  - simpl. apply Unanswered_cons.
    + specialize (H1 0%nat u eq_refl). now rewrite Nat.add_0_r in H1.
    + apply IH.
      * intros i x Hi. specialize (H1 (S i) x Hi).
        now rewrite Nat.add_succ_r in H1.
      * simpl in H2. now rewrite Nat.add_succ_r in H2.
Qed.

Lemma repeat_snoc_cons (url : jstring) (n : nat) (l : list jstring) :
  repeat url n ++ url :: l = url :: repeat url n ++ l.
Proof. induction n as [|n IH]; simpl; [reflexivity | now rewrite IH]. Qed.

(** The inner loop never throws; it leaves the cache alone, sleeps 300 ms
    after a thrown request that is not the last, and stops at the first
    document. *)
Lemma attemptLoop_spec (url : jstring) : forall attempts w,
  exists found w',
    attemptLoop network url attempts w = (Normal found, w')
    /\ languageCache w' = languageCache w
    /\ (now w <= now w' <= now w + 300 * N.of_nat (Nat.pred attempts))%N
    /\ match found with
       | Some html =>
           exists m, (m < attempts)%nat
                     /\ requests w' = repeat url (S m) ++ requests w
                     /\ Unanswered network (List.length (requests w)) (repeat url m)
                     /\ network (List.length (requests w) + m)%nat url = RData html
       | None =>
           requests w' = repeat url attempts ++ requests w
           /\ Unanswered network (List.length (requests w)) (repeat url attempts)
       end.
Proof.
  induction attempts as [|attempts IH]; intros w.
  - exists None, w. cbn. repeat split; try lia. apply Unanswered_nil.
  - cbn [attemptLoop]. unfold bind at 1. unfold axiosGet at 1.
    set (w1 := mkWorld (languageCache w) (now w) (url :: requests w)).
    destruct (network (List.length (requests w)) url) as [html| |] eqn:R.
    + exists (Some html), w1. unfold ret. repeat split; cbn; try lia.
      exists 0%nat. repeat split; try lia.
      * apply Unanswered_nil.
      * now rewrite Nat.add_0_r.
    + destruct (IH w1) as [found [w' [E [Hc [Hn Hf]]]]].
      exists found, w'. split; [exact E|]. split; [exact Hc|].
      split; [cbn in Hn |- *; lia|].
      destruct found as [html|].
      * destruct Hf as [m [Hm [Hr [Hu Hd]]]]. exists (S m).
        split; [lia|]. cbn in Hr, Hu, Hd.
        split; [rewrite Hr; cbn; now rewrite repeat_snoc_cons|].
        split.
        -- cbn. apply Unanswered_cons; [now rewrite R | exact Hu].
        -- now rewrite Nat.add_succ_r.
      * destruct Hf as [Hr Hu]. cbn in Hr, Hu.
        split; [rewrite Hr; cbn; now rewrite repeat_snoc_cons|].
        cbn. apply Unanswered_cons; [now rewrite R | exact Hu].
    + destruct attempts as [|attempts'].
      * exists None, w1. unfold ret. repeat split; cbn; try lia.
        apply Unanswered_cons; [now rewrite R | apply Unanswered_nil].
      * unfold bind at 1. unfold sleep at 1.
        set (w2 := mkWorld (languageCache w1) (now w1 + 300) (requests w1)).
        destruct (IH w2) as [found [w' [E [Hc [Hn Hf]]]]].
        exists found, w'. split; [exact E|]. split; [exact Hc|].
        split; [cbn in Hn |- *; lia|].
        destruct found as [html|].
        -- destruct Hf as [m [Hm [Hr [Hu Hd]]]]. exists (S m).
           split; [lia|]. cbn in Hr, Hu, Hd.
           split; [rewrite Hr; cbn; now rewrite repeat_snoc_cons|].
           split.
           ++ cbn. apply Unanswered_cons; [now rewrite R | exact Hu].
           ++ now rewrite Nat.add_succ_r.
        -- destruct Hf as [Hr Hu]. cbn in Hr, Hu.
           split; [rewrite Hr; cbn [repeat]; now rewrite repeat_snoc_cons|].
           cbn [repeat]. apply Unanswered_cons; [now rewrite R | exact Hu].
Qed.

Lemma urlLoop_spec (domain : jstring) (retries : nat) : forall urls w,
  exists w',
    languageCache w' = languageCache w
    /\ (now w <= now w'
        <= now w + 300 * N.of_nat retries * N.of_nat (List.length urls))%N
    /\ ((exists html pre url post,
            urlLoop network domain urls retries w = (Normal html, w')
            /\ flat_map (fun u => repeat u (S retries)) urls = pre ++ url :: post
            /\ requests w' = url :: rev pre ++ requests w
            /\ Unanswered network (List.length (requests w)) pre
            /\ network (List.length (requests w) + List.length pre)%nat url
               = RData html)
        \/ (urlLoop network domain urls retries w
            = (Throw (js "Failed to fetch any URL for domain: " ++ domain), w')
            /\ requests w'
               = rev (flat_map (fun u => repeat u (S retries)) urls) ++ requests w
            /\ Unanswered network (List.length (requests w))
                          (flat_map (fun u => repeat u (S retries)) urls))).
Proof.
  induction urls as [|url urls IH]; intros w.
  - exists w. split; [reflexivity|]. split; [lia|]. right.
    cbn. repeat split. apply Unanswered_nil.
  - cbn [urlLoop flat_map]. unfold bind.
    destruct (attemptLoop_spec url (S retries) w) as [found [w1 [E [Hc [Hn Hf]]]]].
    rewrite E. destruct found as [html|].
    + destruct Hf as [m [Hm [Hr [Hu Hd]]]].
      exists w1. split; [exact Hc|].
      split; [cbn [Nat.pred List.length] in Hn |- *; lia|].
      left. exists html, (repeat url m), url,
                   (repeat url (retries - m) ++
                    flat_map (fun u => repeat u (S retries)) urls).
      split; [reflexivity|].
      split.
      { replace (S retries) with (m + S (retries - m))%nat by lia.
        rewrite repeat_app. cbn [repeat]. now rewrite <- app_assoc. }
      split.
      { rewrite Hr. cbn [repeat]. cbn. f_equal. f_equal.
        clear. induction m as [|m IHm]; [reflexivity|].
        cbn. rewrite <- IHm. clear.
        induction m as [|m IHm]; [reflexivity | cbn; now rewrite <- IHm]. }
      split; [exact Hu|]. now rewrite repeat_length.
    + destruct Hf as [Hr Hu].
      destruct (IH w1) as [w' [Hc' [Hn' Hcase]]].
      exists w'. split; [congruence|].
      split; [cbn [Nat.pred List.length] in Hn |- *; lia|].
      assert (rev (repeat url (S retries)) = repeat url (S retries)) as Hrev.
      { clear. generalize (S retries). intros n.
        induction n as [|n IHn]; [reflexivity|].
        cbn. rewrite IHn. clear.
        induction n as [|n IHn]; [reflexivity | cbn; now rewrite IHn]. }
      assert (List.length (requests w1)
              = (List.length (requests w) + S retries)%nat) as Hlen
          by (rewrite Hr, length_app, repeat_length; lia).
      destruct Hcase as [[html [pre [u [post [E' [Hs [Hr' [Hu' Hd']]]]]]]]
                        |[E' [Hr' Hu']]].
      * left. exists html, (repeat url (S retries) ++ pre), u, post.
        split; [exact E'|].
        split; [rewrite Hs; now rewrite <- app_assoc|].
        split; [rewrite Hr', Hr, rev_app_distr, Hrev, <- app_assoc; reflexivity|].
        split.
        -- apply Unanswered_app; [exact Hu|].
           rewrite repeat_length, <- Hlen. exact Hu'.
        -- rewrite length_app, repeat_length, Nat.add_assoc, <- Hlen. exact Hd'.
      * right. split; [exact E'|].
        split; [rewrite Hr', Hr, rev_app_distr, Hrev, <- app_assoc; reflexivity|].
        apply Unanswered_app; [exact Hu|].
        rewrite repeat_length, <- Hlen. exact Hu'.
Qed.

(** X6: [fetchWebsite] sends its requests in the order of the schedule
    (each of the three URLs twice), stops at the first request answered
    with a document and returns that document; it throws only when all
    six requests went unanswered.  It never touches the cache and sleeps
    at most 900 ms. *)
Theorem fetchWebsite_first_document (domain : jstring) (w : World) :
  exists w',
    languageCache w' = languageCache w
    /\ (now w <= now w' <= now w + 900)%N
    /\ ((exists html pre url post,
            fetchWebsite network domain w = (Normal html, w')
            /\ fetchSchedule domain = pre ++ url :: post
            /\ requests w' = url :: rev pre ++ requests w
            /\ Unanswered network (List.length (requests w)) pre
            /\ network (List.length (requests w) + List.length pre)%nat url
               = RData html)
        \/ (fetchWebsite network domain w
            = (Throw (js "Failed to fetch any URL for domain: " ++ domain), w')
            /\ requests w' = rev (fetchSchedule domain) ++ requests w
            /\ Unanswered network (List.length (requests w))
                          (fetchSchedule domain))).
Proof.
  unfold fetchWebsite, fetchSchedule.
  destruct (urlLoop_spec domain maxRetries
              [js "https://www." ++ domain; js "https://" ++ domain;
               js "http://www." ++ domain] w) as [w' [Hc [Hn Hcase]]].
  exists w'. split; [exact Hc|]. split; [|exact Hcase].
  cbn [List.length] in Hn. unfold maxRetries in Hn. lia.
Qed.

End FetchFacts.

(** ** More on detectLanguage *)

Section RunFacts.

Variable franc : jstring -> jstring.
Variable network : nat -> jstring -> Response.

Lemma fetchSchedule_not_empty (d : jstring) : fetchSchedule d <> [].
Proof. unfold fetchSchedule. cbn [flat_map repeat maxRetries]. discriminate. Qed.

(** What a fetch does to the world, whatever its outcome. *)
Lemma fetchWebsite_requests (d : jstring) (w : World) :
  exists c w',
    fetchWebsite network d w = (c, w')
    /\ languageCache w' = languageCache w
    /\ exists pre post, fetchSchedule d = pre ++ post /\ pre <> []
                        /\ requests w' = rev pre ++ requests w.
Proof.
  unfold fetchWebsite.
  destruct (urlLoop_spec network d maxRetries
              [js "https://www." ++ d; js "https://" ++ d; js "http://www." ++ d] w)
    as [w' [Hc [_ [[html [pre [url [post [E [Hs [Hr _]]]]]]]|[E [Hr _]]]]]].
  - exists (Normal html), w'. split; [exact E|]. split; [exact Hc|].
    exists (pre ++ [url]), post.
    split; [unfold fetchSchedule; etransitivity; [exact Hs|];
            now rewrite <- app_assoc|].
    split; [destruct pre; discriminate|].
    rewrite rev_app_distr. exact Hr.
  - eexists _, w'. split; [exact E|]. split; [exact Hc|].
    exists (fetchSchedule d), [].
    split; [now rewrite app_nil_r|].
    split; [apply fetchSchedule_not_empty | exact Hr].
Qed.

(** Strategy 2 never throws; it sends at least one request, all of them
    from the schedule of its domain, and writes the cache exactly when it
    has an answer. *)
Lemma webDetection_world (d : jstring) (w : World) :
  exists r w',
    webDetection franc network d w = (Normal r, w')
    /\ (exists pre post, fetchSchedule d = pre ++ post /\ pre <> []
                         /\ requests w' = rev pre ++ requests w)
    /\ match r with
       | None => languageCache w' = languageCache w
       | Some det =>
           detectedSource det = js "web"
           /\ detectedLanguage det <> js "unknown"
           /\ languageCache w'
              = set (languageCache w) d (detectedLanguage det) (js "web") (now w')
       end.
Proof.
  unfold webDetection, tryCatch, bind.
  destruct (fetchWebsite_requests d w) as [c [w1 [E [Hc Hreq]]]]. rewrite E.
  destruct c as [html|e].
  - destruct (detectLanguageFromHTML franc html defaultOptions) as [[|x l]|].
    + exists None, w1. auto.
    + destruct (jstring_eqb (x :: l) (js "unknown")) eqn:U; cbn [negb].
      * exists None, w1. auto.
      * eexists (Some (mkDetection (x :: l) (js "web"))), _.
        split; [reflexivity|]. cbn [requests languageCache now].
        split; [exact Hreq|]. cbn [detectedSource detectedLanguage].
        split; [reflexivity|].
        split; [intros Hu; rewrite Hu, jstring_eqb_refl in U; discriminate|].
        now rewrite Hc.
    + exists None, w1. auto.
  - exists None, w1. auto.
Qed.

Lemma explicit_of_string (s : jstring) :
  detectExplicitLanguageInName (VString s)
  = Normal (firstMatch explicitPatterns (toLowerCase s)).
Proof. reflexivity. Qed.

Lemma detectLanguage_uncached (s : jstring) (tv : jsval) (d : jstring) (w : World) :
  extractDomain tv = Normal (Some d) ->
  firstMatch explicitPatterns (toLowerCase s) = None ->
  cache (languageCache w) !! d = None ->
  detectLanguage franc network (mkChannel (VString s) tv) w
  = match webDetection franc network d w with
    | (Normal (Some detection), w1) => (Normal detection, w1)
    | (Normal None, w1) => patternFallback (mkChannel (VString s) tv) (Some d) w1
    | (Throw e, w1) => (Throw e, w1)
    end.
Proof.
  intros Hd He Hc. unfold detectLanguage, bind, lift. cbn [name tvgId].
  rewrite Hd, explicit_of_string, He. unfold cacheHas, has. cbn beta iota.
  rewrite Hc.
  destruct (webDetection franc network d w) as [[[det|]|e] w1]; reflexivity.
Qed.

Lemma detectLanguage_no_domain (s : jstring) (tv : jsval) (w : World) :
  extractDomain tv = Normal None ->
  firstMatch explicitPatterns (toLowerCase s) = None ->
  detectLanguage franc network (mkChannel (VString s) tv) w
  = patternFallback (mkChannel (VString s) tv) None w.
Proof.
  intros Hd He. unfold detectLanguage, bind, lift. cbn [name tvgId].
  rewrite Hd, explicit_of_string, He. reflexivity.
Qed.

Lemma detectLanguage_no_name (nm tv : jsval) (w : World) (e : jstring) :
  callToLowerCase nm = Throw e ->
  detectLanguage franc network (mkChannel nm tv) w = (Throw e, w).
Proof.
  intros Hn. unfold detectLanguage, bind, lift. cbn [name tvgId].
  destruct (extractDomain_total tv) as [domain ->].
  unfold detectExplicitLanguageInName. rewrite Hn. reflexivity.
Qed.

Lemma returns_string_name (channel : Channel) (w w' : World) (det : Detection) :
  detectLanguage franc network channel w = (Normal det, w') ->
  exists s, name channel = VString s.
Proof.
  destruct channel as [nm tv]. cbn [name]. intros H.
  destruct (callToLowerCase nm) as [l|e] eqn:E.
  - destruct nm; try discriminate. now eexists.
  - rewrite (detectLanguage_no_name nm tv w e E) in H. discriminate.
Qed.

(** After a normal return for a channel with a domain, the cache holds an
    entry for that domain with the language just answered. *)
Lemma cached_after_return (channel : Channel) (w w' : World)
      (det : Detection) (d : jstring) :
  detectLanguage franc network channel w = (Normal det, w') ->
  extractDomain (tvgId channel) = Normal (Some d) ->
  exists entry,
    cache (languageCache w') !! d = Some entry
    /\ entryLanguage entry = detectedLanguage det
    /\ (detectedSource det = entrySource entry
        \/ detectedSource det = js "cached-" ++ entrySource entry).
Proof.
  intros H Hd. destruct (returns_string_name _ _ _ _ H) as [s Hs].
  destruct channel as [nm tv]. cbn [name tvgId] in *. subst nm.
  destruct (firstMatch explicitPatterns (toLowerCase s)) as [l|] eqn:He.
  - rewrite (detectLanguage_explicit franc network (VString s) tv w (Some d) l Hd)
      in H by (now rewrite explicit_of_string, He).
    injection H as <- <-. eexists. cbn [languageCache]. rewrite set_cache.
    split; [apply lookup_insert_eq|]. cbn. auto.
  - destruct (cache (languageCache w) !! d) as [entry|] eqn:Hc.
    + rewrite (detectLanguage_cached franc network (VString s) tv w d entry Hd)
        in H by (try exact Hc; now rewrite explicit_of_string, He).
      injection H as <- <-. exists entry. cbn. auto.
    + rewrite (detectLanguage_uncached s tv d w Hd He Hc) in H.
      destruct (webDetection_world d w) as [r [w1 [E [_ Hr]]]]. rewrite E in H.
      destruct r as [det1|].
      * injection H as <- <-. destruct Hr as [Hsrc [_ Hcache]].
        eexists. rewrite Hcache, set_cache.
        split; [apply lookup_insert_eq|]. cbn [entryLanguage entrySource].
        split; [reflexivity | left; exact Hsrc].
      * destruct (patternFallback_result franc s tv (Some d) w1) as [l [_ Ep]].
        rewrite Ep in H. injection H as <- <-.
        eexists. cbn [languageCache]. rewrite set_cache.
        split; [apply lookup_insert_eq|]. cbn. auto.
Qed.

(** X7: [detectLanguage] returns normally for every channel whose name is
    a string, whatever the tvgId, the cache and the network do; for a
    name that is undefined, null, a boolean or a number it throws before
    anything is cached or requested. *)
Theorem detectLanguage_returns_for_string_names :
  (forall (s : jstring) (tv : jsval) (w : World),
      exists det w',
        detectLanguage franc network (mkChannel (VString s) tv) w = (Normal det, w'))
  /\ (forall (nm tv : jsval) (w : World),
         nm = VUndefined \/ nm = VNull
         \/ (exists b, nm = VBool b) \/ (exists q, nm = VNumber q) ->
         exists e, detectLanguage franc network (mkChannel nm tv) w = (Throw e, w)).
Proof.
  split.
  - intros s tv w.
    destruct (extractDomain_total tv) as [domain Hd].
    destruct (firstMatch explicitPatterns (toLowerCase s)) as [l|] eqn:He.
    + eexists _, _.
      apply (detectLanguage_explicit franc network (VString s) tv w domain l Hd).
      now rewrite explicit_of_string, He.
    + destruct domain as [d|].
      * destruct (cache (languageCache w) !! d) as [entry|] eqn:Hc.
        -- eexists _, _.
           apply (detectLanguage_cached franc network (VString s) tv w d entry Hd);
             [|exact Hc].
           now rewrite explicit_of_string, He.
        -- rewrite (detectLanguage_uncached s tv d w Hd He Hc).
           destruct (webDetection_world d w) as [r [w1 [E _]]]. rewrite E.
           destruct r as [det|]; [now eexists _, _|].
           destruct (patternFallback_result franc s tv (Some d) w1) as [l [_ Ep]].
           rewrite Ep. now eexists _, _.
      * rewrite (detectLanguage_no_domain s tv w Hd He).
        destruct (patternFallback_result franc s tv None w) as [l [_ Ep]].
        rewrite Ep. now eexists _, _.
  - intros nm tv w [->|[->|[[b ->]|[q ->]]]];
      eexists; apply detectLanguage_no_name; reflexivity.
Qed.

(** X9: the network is used only for a channel whose name mentions no
    language as a whole word and whose domain is not in the cache; the
    requests then sent are a non-empty initial part of the schedule of
    that domain. *)
Theorem detectLanguage_network_use (channel : Channel) (w : World) :
  requests (snd (detectLanguage franc network channel w)) = requests w
  \/ exists s d pre post,
       name channel = VString s
       /\ extractDomain (tvgId channel) = Normal (Some d)
       /\ firstMatch explicitPatterns (toLowerCase s) = None
       /\ cache (languageCache w) !! d = None
       /\ fetchSchedule d = pre ++ post /\ pre <> []
       /\ requests (snd (detectLanguage franc network channel w))
          = rev pre ++ requests w.
Proof.
  destruct channel as [nm tv]. cbn [name tvgId].
  destruct (callToLowerCase nm) as [lower|e] eqn:En.
  2:{ left. now rewrite (detectLanguage_no_name nm tv w e En). }
  assert (exists s, nm = VString s) as [s ->]
      by (destruct nm; try discriminate; now eexists).
  destruct (extractDomain_total tv) as [domain Hd].
  destruct (firstMatch explicitPatterns (toLowerCase s)) as [l|] eqn:He.
  - left.
    rewrite (detectLanguage_explicit franc network (VString s) tv w domain l Hd)
      by (now rewrite explicit_of_string, He).
    destruct domain; reflexivity.
  - destruct domain as [d|].
    + destruct (cache (languageCache w) !! d) as [entry|] eqn:Hc.
      * left.
        rewrite (detectLanguage_cached franc network (VString s) tv w d entry Hd)
          by (try exact Hc; now rewrite explicit_of_string, He).
        reflexivity.
      * right. exists s, d.
        rewrite (detectLanguage_uncached s tv d w Hd He Hc).
        destruct (webDetection_world d w)
          as [r [w1 [E [[pre [post [Hs [Hne Hr]]]] _]]]].
        rewrite E. exists pre, post.
        repeat (split; [assumption || reflexivity|]).
        destruct r as [det|]; [exact Hr|].
        destruct (patternFallback_result franc s tv (Some d) w1) as [l [_ Ep]].
        rewrite Ep. exact Hr.
    + left. rewrite (detectLanguage_no_domain s tv w Hd He).
      destruct (patternFallback_result franc s tv None w) as [l [_ Ep]].
      now rewrite Ep.
Qed.

End RunFacts.

(** X8: after a normal return the cache holds, for the channel's domain,
    an entry with the language just answered; and a second run for the
    same channel in the world the first run left gives the same language
    without any request, whatever the network and the statistical
    detector have become. *)
Theorem detectLanguage_second_run
        (franc franc' : jstring -> jstring)
        (network network' : nat -> jstring -> Response)
        (channel : Channel) (w w' : World) (det : Detection) :
  detectLanguage franc network channel w = (Normal det, w') ->
  (forall d, extractDomain (tvgId channel) = Normal (Some d) ->
             exists entry,
               cache (languageCache w') !! d = Some entry
               /\ entryLanguage entry = detectedLanguage det)
  /\ exists det2 w2,
       detectLanguage franc' network' channel w' = (Normal det2, w2)
       /\ detectedLanguage det2 = detectedLanguage det
       /\ requests w2 = requests w'.
Proof.
  intros H. split.
  { intros d Hd.
    destruct (cached_after_return franc network channel w w' det d H Hd)
      as [entry [Hc [Hl _]]].
    now exists entry. }
  destruct (returns_string_name _ _ _ _ _ _ H) as [s Hs].
  destruct channel as [nm tv]. cbn [name] in Hs. subst nm.
  destruct (extractDomain_total tv) as [domain Hd].
  destruct (firstMatch explicitPatterns (toLowerCase s)) as [l|] eqn:He.
  - assert (detectExplicitLanguageInName (VString s) = Normal (Some l)) as Hx
        by (now rewrite explicit_of_string, He).
    rewrite (detectLanguage_explicit franc network _ tv w domain l Hd Hx) in H.
    injection H as <- _.
    rewrite (detectLanguage_explicit franc' network' _ tv w' domain l Hd Hx).
    eexists _, _. split; [reflexivity|]. split; [reflexivity|].
    destruct domain; reflexivity.
  - assert (detectExplicitLanguageInName (VString s) = Normal None) as Hx
        by (now rewrite explicit_of_string, He).
    destruct domain as [d|].
    + destruct (cached_after_return franc network (mkChannel (VString s) tv)
                  w w' det d H Hd) as [entry [Hc [Hl _]]].
      rewrite (detectLanguage_cached franc' network' _ tv w' d entry Hd Hx Hc).
      eexists _, _. split; [reflexivity|]. split; [exact Hl | reflexivity].
    + rewrite (detectLanguage_no_domain franc network s tv w Hd He) in H.
      rewrite (detectLanguage_no_domain franc' network' s tv w' Hd He).
      destruct (patternFallback_result franc s tv None w) as [l1 [_ E1]].
      destruct (patternFallback_result franc s tv None w') as [l2 [_ E2]].
      assert (l1 = l2) as <-.
      { unfold patternFallback, bind, lift, ret in E1, E2. cbn [name] in E1, E2.
        destruct (detectLanguageByPattern (VString s)) as [pl|e];
          [|discriminate].
        injection E1 as <-. injection E2 as <-. reflexivity. }
      rewrite E1 in H. rewrite E2. injection H as <- <-.
      eexists _, _. split; [reflexivity|]. split; reflexivity.
Qed.

(** "XYZ News" on a network where nothing answers: the first run sends
    six requests and falls back to the pattern; the second run answers
    from the cache. *)
Lemma detectLanguage_second_run_witness :
  fst (detectLanguage francUndetermined offline xyzNews freshWorld)
  = Normal (mkDetection (js "hindi") (js "pattern"))
  /\ List.length
       (requests (snd (detectLanguage francUndetermined offline xyzNews freshWorld)))
     = 6%nat
  /\ exists det2 w2,
       detectLanguage francEnglish offline xyzNews
         (snd (detectLanguage francUndetermined offline xyzNews freshWorld))
       = (Normal det2, w2)
       /\ detectedLanguage det2 = js "hindi"
       /\ requests w2
          = requests (snd (detectLanguage francUndetermined offline xyzNews
                             freshWorld)).
Proof.
  split; [vm_compute; reflexivity|]. split; [vm_compute; reflexivity|].
  apply (detectLanguage_second_run francUndetermined francEnglish offline offline
           xyzNews freshWorld
           (snd (detectLanguage francUndetermined offline xyzNews freshWorld))
           (mkDetection (js "hindi") (js "pattern"))).
  vm_compute. reflexivity.
Defined.

(** ** The shape of normalized codes and of extracted domains *)

Lemma test_isoCode_one (a : N) : test isoCodePattern [a] = false.
Proof.
  unfold isoCodePattern, Exactly2. cbn [seqs]. rewrite test_anchored. simpl.
  now rewrite andb_false_r.
Qed.

Lemma normalize_two_lower (a b : N) :
  isLowerAscii a = true -> isLowerAscii b = true ->
  normalizeLanguageCode (VString [a; b]) = VString [a; b].
Proof.
  intros Ha Hb. unfold normalizeLanguageCode, toLowerCase.
  cbn [flat_map]. rewrite (lower_letter_lowerUnit a Ha), (lower_letter_lowerUnit b Hb).
  cbn [app].
  assert (trim [a; b] = [a; b]) as ->.
  { unfold trim, trimStart, trimEnd. simpl.
    rewrite (lower_letter_not_space a Ha). simpl.
    now rewrite (lower_letter_not_space b Hb). }
  now rewrite test_isoCode_two, Ha, Hb.
Qed.

Lemma langMap_codes (key code : jstring) :
  assoc key langMap = Some code -> isTwoLetterCode code = true.
Proof.
  intros H. apply assoc_value in H.
  assert (forallb isTwoLetterCode (List.map snd langMap) = true) as Hall
      by (vm_compute; reflexivity).
  rewrite forallb_forall in Hall. now apply Hall.
Qed.

(** X10: every string that [normalizeLanguageCode] returns consists of
    two lower-case ASCII letters, and is returned unchanged when it is
    normalized again. *)
Theorem normalize_code_shape (v : jsval) (code : jstring) :
  normalizeLanguageCode v = VString code ->
  isTwoLetterCode code = true
  /\ normalizeLanguageCode (VString code) = VString code.
Proof.
  intros H.
  assert (isTwoLetterCode code = true) as Hshape.
  { destruct v as [| |b|q|s| | |]; try discriminate.
    destruct s as [|x s]; [discriminate|].
    unfold normalizeLanguageCode in H. cbv zeta in H.
    set (normalized := trim (toLowerCase (x :: s))) in *.
    destruct (test isoCodePattern normalized) eqn:T1.
    - injection H as <-.
      destruct normalized as [|a [|b [|c rest]]].
      + now rewrite test_isoCode_empty in T1.
      + now rewrite test_isoCode_one in T1.
      + now rewrite test_isoCode_two in T1.
      + now rewrite test_isoCode_longer in T1.
    - destruct (test localePattern normalized) eqn:T2.
      + injection H as <-.
        destruct (test_locale_short _ T2) as [a [b [c [rest E]]]].
        rewrite E in T2 |- *. rewrite test_locale in T2.
        apply andb_true_iff in T2 as [T2 _]. exact T2.
      + unfold literalGet in H.
        destruct (assoc normalized langMap) as [c|] eqn:A.
        * destruct (truthy (VString c)); [|discriminate].
          injection H as <-. now apply (langMap_codes normalized).
        * unfold objectPrototypeGet in H.
          repeat match type of H with
                 | context [if ?c then _ else _] => destruct c
                 end; discriminate. }
  split; [exact Hshape|].
  destruct code as [|a [|b [|c rest]]]; try discriminate.
  unfold isTwoLetterCode in Hshape. apply andb_true_iff in Hshape as [Ha Hb].
  now apply normalize_two_lower.
Qed.

(** The locale form [ EN-us ] and the name [Tamil]. *)
Lemma normalize_code_shape_witness :
  normalizeLanguageCode (VString (js " EN-us ")) = VString (js "en")
  /\ (isTwoLetterCode (js "en") = true
      /\ normalizeLanguageCode (VString (js "en")) = VString (js "en")).
Proof.
  split; [vm_compute; reflexivity|].
  apply (normalize_code_shape (VString (js " EN-us ")) (js "en")).
  vm_compute. reflexivity.
Defined.

Lemma trim_fixed (s : jstring) :
  Forall (fun c => isWhiteSpace c = false) s -> trim s = s.
Proof.
  intros H. unfold trim, trimStart, trimEnd.
  assert (forall t, Forall (fun c => isWhiteSpace c = false) t ->
                    dropWhile isWhiteSpace t = t) as Hdrop.
  { intros [|c t] Ht; [reflexivity|]. simpl.
    apply List.Forall_cons_iff in Ht as [Hc _]. now rewrite Hc. }
  rewrite (Hdrop s H), Hdrop; [apply rev_involutive|].
  apply List.Forall_forall. intros c Hc. apply in_rev in Hc.
  rewrite List.Forall_forall in H. now apply H.
Qed.

Lemma alnumHyphen_range (c : N) : isAlnumHyphen c = true -> 45 <= c <= 122.
Proof.
  unfold isAlnumHyphen, isAlnum, isAlpha, isUpperAscii, isLowerAscii, isDigit,
    inRange.
  intros H.
  repeat match type of H with
         | _ || _ = true => apply orb_true_iff in H as [H|H]
         end;
    try (apply andb_true_iff in H as [H1 H2];
         apply N.leb_le in H1; apply N.leb_le in H2; lia).
  apply N.eqb_eq in H. lia.
Qed.

Lemma Hostname_units (d : jstring) :
  Hostname d -> Forall (fun c => isAlnumHyphen c = true \/ c = 46) d.
Proof.
  intros [first [rest [[c [Hc Hfirst]] [_ [Hrest ->]]]]].
  apply Forall_app. split.
  - destruct Hfirst as [->|[inner [e [-> [Hin He]]]]].
    + repeat constructor. class_facts.
    + constructor; [left; class_facts|].
      apply Forall_app. split.
      * eapply List.Forall_impl; [|exact Hin]. intros x Hx. now left.
      * repeat constructor. class_facts.
  - induction Hrest as [|l rest [_ Hl] _ IH]; [constructor|].
    simpl. constructor; [now right|].
    apply Forall_app. split; [|exact IH].
    eapply List.Forall_impl; [|exact Hl]. intros x Hx. left. class_facts.
Qed.

(** X11: what [extractDomain] returns contains neither [@] nor white
    space, and [extractDomain] returns it unchanged when given it again. *)
Theorem extractDomain_fixed_point (tv : jsval) (d : jstring) :
  extractDomain tv = Normal (Some d) ->
  ~ In 64 d
  /\ Forall (fun c => isWhiteSpace c = false) d
  /\ extractDomain (VString d) = Normal (Some d).
Proof.
  intros H.
  destruct tv as [| |b|q|s| | |];
    try (unfold extractDomain in H; cbn [typeofString negb] in H;
         rewrite orb_true_r in H; discriminate).
  apply extractDomain_some in H as [_ Hhost].
  pose proof (Hostname_units d Hhost) as Hunits.
  assert (~ In 64 d) as Hat.
  { intros Hin. rewrite List.Forall_forall in Hunits.
    destruct (Hunits _ Hin) as [Hc|Hc]; [|discriminate].
    vm_compute in Hc. discriminate. }
  assert (Forall (fun c => isWhiteSpace c = false) d) as Hws.
  { eapply List.Forall_impl; [|exact Hunits].
    intros c [Hc| ->]; [|reflexivity].
    apply alnumHyphen_range in Hc. class_facts. }
  split; [exact Hat|]. split; [exact Hws|].
  apply extractDomain_some. split; [|exact Hhost].
  unfold candidate. rewrite (beforeFirst_absent 64 d Hat).
  symmetry. now apply trim_fixed.
Qed.

(** The host of [ SunTV.in@HD]. *)
Lemma extractDomain_fixed_point_witness :
  extractDomain (VString (js " SunTV.in@HD")) = Normal (Some (js "SunTV.in"))
  /\ (~ In 64 (js "SunTV.in")
      /\ Forall (fun c => isWhiteSpace c = false) (js "SunTV.in")
      /\ extractDomain (VString (js "SunTV.in")) = Normal (Some (js "SunTV.in"))).
Proof.
  split; [vm_compute; reflexivity|].
  apply (extractDomain_fixed_point (VString (js " SunTV.in@HD")) (js "SunTV.in")).
  vm_compute. reflexivity.
Defined.

(** ** The pattern fallback *)

Lemma test_simple (r : regex) (s : jstring) :
  simple r = true ->
  test r s = true <-> exists pre u post, s = pre ++ u ++ post /\ lang r u.
Proof.
  intros Hs. unfold test. rewrite search_spec. split.
  - intros [pre [post [-> [y Hy]]]].
    apply (denote_simple _ Hs) in Hy as [u [Hu [E _]]].
    exists pre, u, (snd y). split; [now rewrite <- E | exact Hu].
  - intros [pre [u [post [-> Hu]]]].
    exists pre, (u ++ post). split; [reflexivity|].
    exists (lastOr (lastOr None pre) u, post).
    apply (denote_simple _ Hs). exists u. auto.
Qed.

Lemma test_litI (w s : jstring) :
  test (litI w) s = true <-> ContainsIgnoringCase w s.
Proof.
  rewrite (test_simple _ _ (litI_simple w)). unfold ContainsIgnoringCase.
  split; intros [pre [u [post [E Hu]]]]; exists pre, u, post;
    (split; [exact E | now apply lang_litI]).
Qed.

Lemma lit_simple (w : jstring) : simple (lit w) = true.
Proof.
  unfold lit. induction w as [|x [|x' w] IH]; try reflexivity.
  change (simple (Seq (chr x) (seqs (List.map chr (x' :: w)))) = true).
  simpl simple at 1. exact IH.
Qed.

Lemma lang_lit (w : jstring) : forall u, lang (lit w) u <-> u = w.
Proof.
  unfold lit. induction w as [|x [|x' w] IH]; intros u.
  - simpl. tauto.
  - simpl. split.
    + intros [c [-> Hc]]. apply N.eqb_eq in Hc. now subst.
    + intros ->. exists x. split; [reflexivity | apply N.eqb_refl].
  - change (lang (Seq (chr x) (seqs (List.map chr (x' :: w)))) u
            <-> u = x :: x' :: w).
    split.
    + intros [u1 [u2 [-> [[c [-> Hc]] H2]]]].
      apply N.eqb_eq in Hc. apply IH in H2. subst. reflexivity.
    + intros ->. exists [x], (x' :: w). split; [reflexivity|].
      split; [exists x; split; [reflexivity | apply N.eqb_refl]|].
      now apply IH.
Qed.

Lemma test_lit (w s : jstring) : test (lit w) s = true <-> Contains w s.
Proof.
  rewrite (test_simple _ _ (lit_simple w)). unfold Contains. split.
  - intros [pre [u [post [E Hu]]]]. apply lang_lit in Hu. subst u.
    now exists pre, post.
  - intros [pre [post E]]. exists pre, w, post.
    split; [exact E | now apply lang_lit].
Qed.

(** Lower-casing a word that is, up to ASCII case, a word of lower-case
    ASCII letters gives that word. *)
Lemma toLowerCase_same (w : jstring) :
  Forall (fun x => isLowerAscii x = true) w ->
  forall u, sameIgnoringCase u w -> toLowerCase u = w.
Proof.
  unfold sameIgnoringCase, toLowerCase.
  induction 1 as [|x w Hx _ IH]; intros [|c u] E; try discriminate;
    [reflexivity|].
  simpl in E. injection E as Ec Eu. simpl. rewrite (IH u Eu).
  assert (lowerUnit c = [x]) as ->; [|reflexivity].
  assert (asciiLower x = x) as Ex by class_facts.
  rewrite Ex in Ec. clear Ex IH Eu.
  unfold asciiLower in Ec. unfold lowerUnit.
  destruct (isUpperAscii c) eqn:U; [now rewrite Ec|].
  subst c. class_facts.
Qed.

Lemma toLowerCase_app (a b : jstring) :
  toLowerCase (a ++ b) = toLowerCase a ++ toLowerCase b.
Proof. unfold toLowerCase. apply flat_map_app. Qed.

Lemma contains_lowered (w s : jstring) :
  Forall (fun x => isLowerAscii x = true) w ->
  ContainsIgnoringCase w s -> Contains w (toLowerCase s).
Proof.
  intros Hw [pre [u [post [-> Hu]]]].
  exists (toLowerCase pre), (toLowerCase post).
  now rewrite !toLowerCase_app, (toLowerCase_same w Hw u Hu).
Qed.

Lemma contains_ignoring_case (w s : jstring) :
  Contains w s -> ContainsIgnoringCase w s.
Proof. intros [pre [post E]]. now exists pre, w, post. Qed.

Lemma pattern_key_known (s l : jstring) :
  firstMatch LANGUAGE_PATTERNS s = Some l -> l <> js "unknown".
Proof.
  intros H Hl. apply firstMatch_key in H. subst l.
  vm_compute in H. intuition discriminate.
Qed.

(** X12: a name that contains [tamil], in any mix of ASCII cases, is
    answered [tamil] by [detectLanguageByPattern], whatever else it
    contains; and a name that contains one of [tv], [channel], [news],
    [bharat], [india], [desi] is never answered [unknown]. *)
Theorem pattern_fallback_substrings (s : jstring) :
  (ContainsIgnoringCase (js "tamil") s ->
   detectLanguageByPattern (VString s) = Normal (js "tamil"))
  /\ (forall w, In w genericWords -> ContainsIgnoringCase (js w) s ->
                exists l, detectLanguageByPattern (VString s) = Normal l
                          /\ l <> js "unknown").
Proof.
  unfold detectLanguageByPattern. cbn [callToLowerCase cbind]. split.
  - intros H.
    apply (contains_lowered (js "tamil")) in H;
      [|repeat constructor].
    apply contains_ignoring_case, test_litI in H.
    assert (firstMatch LANGUAGE_PATTERNS (toLowerCase s) = Some (js "tamil")) as ->;
      [|reflexivity].
    unfold LANGUAGE_PATTERNS. cbn [firstMatch].
    rewrite test_alts. cbn [existsb]. unfold L at 1.
    now rewrite H.
  - intros w Hw H.
    destruct (firstMatch LANGUAGE_PATTERNS (toLowerCase s)) as [l|] eqn:E.
    + exists l. split; [reflexivity | now apply (pattern_key_known _ _ E)].
    + assert (test genericTerms (toLowerCase s) = true) as ->.
      { unfold genericTerms. rewrite test_alts, existsb_exists.
        exists (lit (js w)). split.
        - apply (in_map (fun w => lit (js w))). exact Hw.
        - apply test_lit, contains_lowered; [|exact H].
          unfold genericWords in Hw. simpl in Hw.
          repeat (destruct Hw as [<-|Hw]; [repeat constructor|]).
          destruct Hw. }
      exists (js "hindi"). split; [reflexivity | discriminate].
Qed.

(** ** The confidence tier of the metadata *)

Lemma existsb_snoc {A : Type} (f : A -> bool) (l : list A) (x : A) :
  existsb f (l ++ [x]) = existsb f l || f x.
Proof. rewrite existsb_app. simpl. now rewrite orb_false_r. Qed.

(** X13: the metadata analyzer reports the tier [high] exactly when the
    page has a non-empty [lang] attribute on [html] or a non-empty
    content in one of the meta tags [content-language], [og:locale] and
    [language]; hints in descriptions and resource names never raise
    the tier. *)
Theorem metadata_tier (html : Page) :
  metaConfidence (detectLanguageFromMetadata html) = high
  <-> orNull (htmlLangAttr html) <> None
      \/ orNull (contentLanguageContent html) <> None
      \/ orNull (ogLocaleContent html) <> None
      \/ orNull (languageContent html) <> None.
Proof.
  unfold detectLanguageFromMetadata. cbv zeta. cbn [metaConfidence].
  generalize (detectLanguageFromDescription
                (VString
                   (orEmpty (description
                      (mkMetadata (orNull (Some (trim (titleText html))))
                                  (orNull (descriptionContent html))
                                  (orNull (ogTitleContent html))
                                  (orNull (ogDescriptionContent html))
                                  (orNull (ogSiteNameContent html))))
                    ++ js " "
                    ++ orEmpty (ogDescription
                         (mkMetadata (orNull (Some (trim (titleText html))))
                                     (orNull (descriptionContent html))
                                     (orNull (ogTitleContent html))
                                     (orNull (ogDescriptionContent html))
                                     (orNull (ogSiteNameContent html))))
                    ++ js " "
                    ++ orEmpty (title
                         (mkMetadata (orNull (Some (trim (titleText html))))
                                     (orNull (descriptionContent html))
                                     (orNull (ogTitleContent html))
                                     (orNull (ogDescriptionContent html))
                                     (orNull (ogSiteNameContent html))))))).
  generalize (detectLanguageFromResources
                (toLowerCase (join (js " ") (scriptSrcs html) ++ js " "
                              ++ join (js " ") (linkHrefs html)))).
  intros resourceLang languageHint. unfold pushIf.
  destruct (orNull languageHint) as [h|],
           (orNull (htmlLangAttr html)) as [a|],
           (orNull (contentLanguageContent html)) as [b|],
           (orNull (ogLocaleContent html)) as [c|],
           (orNull (languageContent html)) as [d|],
           (orNull resourceLang) as [r|];
    cbn [app]; rewrite ?existsb_snoc; cbn [existsb source];
    repeat match goal with
           | |- context [existsb (jstring_eqb (js ?x)) strongSources] =>
               let v := eval vm_compute in
                        (existsb (jstring_eqb (js x)) strongSources) in
               change (existsb (jstring_eqb (js x)) strongSources) with v
           end;
    cbn [orb]; split; intros H; try discriminate; try reflexivity;
    try (left; discriminate); try (right; left; discriminate);
    try (right; right; left; discriminate);
    try (right; right; right; discriminate);
    intuition congruence.
Qed.

(** ** The cache object *)

Lemma write_cache (c : LanguageCache) (e : jstring * CacheEntry) :
  cache (write c e) = <[fst e := snd e]> (cache c).
Proof. unfold write. rewrite set_cache. now destruct e as [d [l s t]]. Qed.

Lemma writeAll_snoc (c : LanguageCache) (writes : list (jstring * CacheEntry))
      (e : jstring * CacheEntry) :
  writeAll c (writes ++ [e]) = write (writeAll c writes) e.
Proof. unfold writeAll. now rewrite fold_left_app. Qed.

Lemma insertAll_snoc (m : gmap (list N) CacheEntry)
      (writes : list (jstring * CacheEntry)) (e : jstring * CacheEntry) :
  insertAll m (writes ++ [e]) = <[fst e := snd e]> (insertAll m writes).
Proof. unfold insertAll. now rewrite fold_left_app. Qed.

(** The object in memory holds every write, whatever was saved. *)
Lemma writeAll_cache (writes : list (jstring * CacheEntry)) (c : LanguageCache) :
  cache (writeAll c writes) = insertAll (cache c) writes.
Proof.
  induction writes as [|e writes IH] using rev_ind; [reflexivity|].
  now rewrite writeAll_snoc, insertAll_snoc, write_cache, IH.
Qed.

(** X14: [get] and [has] after [set], for domains as [extractDomain]
    gives them (host names, which contain a dot; no name that an object
    inherits does): the domain just set has the entry just built, with
    the time of the call, and every other domain is as before. *)
Theorem set_then_get (c : LanguageCache) (domain lang src : jstring) (t : N) :
  In 46 domain ->
  get (set c domain lang src t) domain = Some (mkCacheEntry lang src t)
  /\ has (set c domain lang src t) domain = true
  /\ forall other, In 46 other -> other <> domain ->
                   get (set c domain lang src t) other = get c other
                   /\ has (set c domain lang src t) other = has c other.
Proof.
  intros _. unfold get, has. rewrite set_cache, lookup_insert_eq.
  split; [reflexivity|]. split; [reflexivity|].
  intros other _ Hne. now rewrite lookup_insert_ne by congruence.
Qed.

(** [abc.tv] set in a cache that knows [xyz.in]. *)
Lemma set_then_get_witness :
  get (set staleCache (js "abc.tv") (js "tamil") (js "web") 7) (js "abc.tv")
  = Some (mkCacheEntry (js "tamil") (js "web") 7)
  /\ has (set staleCache (js "abc.tv") (js "tamil") (js "web") 7) (js "abc.tv")
     = true
  /\ get (set staleCache (js "abc.tv") (js "tamil") (js "web") 7) (js "xyz.in")
     = Some (mkCacheEntry (js "hindi") (js "web") 5).
Proof.
  destruct (set_then_get staleCache (js "abc.tv") (js "tamil") (js "web") 7)
    as [H1 [H2 H3]]; [vm_compute; tauto|].
  split; [exact H1|]. split; [exact H2|].
  destruct (H3 (js "xyz.in")) as [H4 _];
    [vm_compute; tauto | discriminate|].
  rewrite H4. reflexivity.
Defined.

(** The counter and the file after one more [set]. *)
Lemma write_saves (c : LanguageCache) (e : jstring * CacheEntry) :
  (pendingWrites c < cacheSaveInterval)%nat ->
  (S (pendingWrites c) = cacheSaveInterval
   /\ pendingWrites (write c e) = 0%nat
   /\ dirty (write c e) = false
   /\ cacheFile (write c e) = cache (write c e))
  \/ ((S (pendingWrites c) < cacheSaveInterval)%nat
      /\ pendingWrites (write c e) = S (pendingWrites c)
      /\ dirty (write c e) = true
      /\ cacheFile (write c e) = cacheFile c).
Proof.
  intros Hp. unfold write, set. cbn [pendingWrites].
  destruct (cacheSaveInterval <=? S (pendingWrites c))%nat eqn:E.
  - apply Nat.leb_le in E. left. cbn. repeat split. lia.
  - apply Nat.leb_gt in E. right. cbn. repeat split. exact E.
Qed.

(** X15: starting from a saved cache with no pending write, after any
    sequence of [set] calls for host names the counter is the number of
    calls modulo 20 and the file holds the cache as it was after the last
    call whose number is a multiple of 20: at most the last 19 writes are
    missing from it, and a [flush] then writes them all. *)
Theorem cache_saved_every_twentieth
        (c : LanguageCache) (writes : list (jstring * CacheEntry)) :
  pendingWrites c = 0%nat -> dirty c = false -> cacheFile c = cache c ->
  Forall (fun e => In 46 (fst e)) writes ->
  let n := List.length writes in
  pendingWrites (writeAll c writes) = (n mod cacheSaveInterval)%nat
  /\ cacheFile (writeAll c writes)
     = insertAll (cache c) (firstn (n - n mod cacheSaveInterval) writes)
  /\ (dirty (writeAll c writes) = false <-> (n mod cacheSaveInterval = 0)%nat)
  /\ cache (writeAll c writes) = insertAll (cache c) writes
  /\ cacheFile (flush (writeAll c writes)) = insertAll (cache c) writes
  /\ cache (flush (writeAll c writes)) = insertAll (cache c) writes
  /\ dirty (flush (writeAll c writes)) = false
  /\ pendingWrites (flush (writeAll c writes)) = 0%nat.
Proof.
  intros Hp Hd Hf _. cbv zeta.
  assert (pendingWrites (writeAll c writes)
          = (List.length writes mod cacheSaveInterval)%nat
          /\ cacheFile (writeAll c writes)
             = insertAll (cache c)
                 (firstn (List.length writes
                          - List.length writes mod cacheSaveInterval) writes)
          /\ (dirty (writeAll c writes) = false
              <-> (List.length writes mod cacheSaveInterval = 0)%nat))
    as [H1 [H2 H3]].
  { induction writes as [|e writes IH] using rev_ind.
    - cbn. rewrite Hp, Hd, Hf. repeat split; reflexivity.
    - destruct IH as [I1 [I2 I3]].
      rewrite writeAll_snoc, length_app. cbn [List.length].
      set (n := List.length writes) in *.
      assert (n mod cacheSaveInterval < cacheSaveInterval)%nat as Hlt
          by (apply Nat.mod_upper_bound; discriminate).
      pose proof (Nat.div_mod_eq n cacheSaveInterval) as Hn.
      destruct (write_saves (writeAll c writes) e) as
          [[Hs [Wp [Wd Wf]]]|[Hs [Wp [Wd Wf]]]]; [now rewrite I1| |].
      + rewrite I1 in Hs.
        assert ((n + 1) mod cacheSaveInterval = 0)%nat as Hm.
        { replace (n + 1)%nat
            with (0 + (S (n / cacheSaveInterval)) * cacheSaveInterval)%nat
            by (unfold cacheSaveInterval in *; lia).
          rewrite Nat.Div0.mod_add. reflexivity. }
        rewrite Hm, Nat.sub_0_r, Wp, Wd, Wf, write_cache, writeAll_cache.
        rewrite firstn_all2 by (rewrite length_app; cbn; lia).
        rewrite insertAll_snoc. repeat split; reflexivity.
      + rewrite I1 in Hs, Wp.
        assert ((n + 1) mod cacheSaveInterval
                = S (n mod cacheSaveInterval))%nat as Hm.
        { replace (n + 1)%nat
            with (S (n mod cacheSaveInterval)
                  + (n / cacheSaveInterval) * cacheSaveInterval)%nat
            by (unfold cacheSaveInterval in *; lia).
          rewrite Nat.Div0.mod_add. now apply Nat.mod_small. }
        rewrite Hm, Wp, Wd, Wf, I2.
        split; [reflexivity|]. split; [|split; intros; discriminate].
        replace (n + 1 - S (n mod cacheSaveInterval))%nat
          with (n - n mod cacheSaveInterval)%nat by lia.
        rewrite firstn_app. fold n.
        replace (n - n mod cacheSaveInterval - n)%nat with 0%nat by lia.
        cbn [firstn]. now rewrite app_nil_r. }
  split; [exact H1|]. split; [exact H2|]. split; [exact H3|].
  pose proof (writeAll_cache writes c) as Hc.
  split; [exact Hc|].
  unfold flush. destruct (dirty (writeAll c writes)) eqn:D.
  - cbn. rewrite Hc. repeat split; reflexivity.
  - destruct H3 as [H3 _]. specialize (H3 eq_refl).
    rewrite H3, Nat.sub_0_r, firstn_all in H2.
    rewrite H2, Hc, D, H1, H3. repeat split; reflexivity.
Qed.

(** Twenty-one writes into an empty cache: the twentieth saves, the last
    one waits for the flush. *)
Lemma cache_saved_every_twentieth_witness :
  pendingWrites (writeAll emptyCache sampleWrites) = 1%nat
  /\ cacheFile (writeAll emptyCache sampleWrites)
     = insertAll (cache emptyCache) (firstn 20 sampleWrites)
  /\ dirty (writeAll emptyCache sampleWrites) = true
  /\ cacheFile (flush (writeAll emptyCache sampleWrites))
     = insertAll (cache emptyCache) sampleWrites.
Proof.
  destruct (cache_saved_every_twentieth emptyCache sampleWrites
              eq_refl eq_refl eq_refl)
    as [H1 [H2 [H3 [_ [H5 _]]]]].
  { apply List.Forall_forall. intros e He.
    apply in_map_iff in He as [i [<- _]]. cbn [fst].
    apply in_or_app. right. now left. }
  split; [exact H1|]. split; [exact H2|]. split; [|exact H5].
  destruct (dirty (writeAll emptyCache sampleWrites)); [reflexivity|].
  destruct H3 as [H3 _]. specialize (H3 eq_refl).
  vm_compute in H3. discriminate H3.
Defined.
